(** * Pseudo-terminal API: output filter, session buffer and session registry

    A shallow embedding of [app/terminal_api.py], [app/session_manager.py]
    and the endpoints of [app/server.py], followed by the
    properties proved of it.

    Conventions of the embedding.
    - A Python [str] is a [text], a list of characters.  Characters are the
      code points below 256 ([ascii]); on that range the regular-expression
      class [\d] is exactly the digits 0 to 9.
    - A [collections.deque] is the list of its elements, oldest first.
    - A Python [dict] is an association list in insertion order with unique
      keys (assignment to a present key keeps its position).
    - A method that can raise returns an outcome together with the state the
      object is left in, since an exception does not undo earlier writes.
    - The pseudo-terminal, the clock, the uuid generator, the file system
      and the standard output that takes the confirmation of a new
      session are inputs of the operations that consult them.
    - A duration or a time is the rational number its float denotes.
    - The reader thread of a session runs while a caller sleeps: a method
      that sleeps takes the polls the thread makes meanwhile.  Module
      [Interleaving] instead takes the statements of the thread and of a
      draining caller one at a time, in any order.
    - Every method of the registry holds the registry lock from its first
      access of the maps to its last, so the registry is a sequential
      object. *)

From Stdlib Require Import String Ascii Bool Arith Lia QArith List.
Import ListNotations.

Local Open Scope list_scope.
Local Open Scope nat_scope.

Definition text := list ascii.

(** A string literal as a [text]. *)
Definition lit (s : string) : text := list_ascii_of_string s.

Definition is_some {A} (o : option A) : bool :=
  match o with Some _ => true | None => false end.

(* ================================================================== *)
(** ** The fragment of Python's [re] used by the filter *)
(* ================================================================== *)

Module Regex.

(** A pattern is a sequence of items: a literal character, a character
    class, or a class under [+] or [*]. *)
Inductive item :=
| Chr (c : ascii)
| Cls (P : ascii -> bool)
| Plus (P : ascii -> bool)
| Star (P : ascii -> bool).

Definition pattern := list item.

(** Greedy repetition with backtracking: take one more character of the
    class when that leads to a match, else hand over to the rest [k] of
    the pattern at the current position.  The result is the number of
    characters the match consumes. *)
Fixpoint greedy (P : ascii -> bool) (k : text -> option nat) (s : text)
  : option nat :=
  match s with
  | c :: t =>
      if P c then
        match greedy P k t with
        | Some n => Some (S n)
        | None => k s
        end
      else k s
  | [] => k []
  end.

Definition one (ok : ascii -> bool) (k : text -> option nat) (s : text)
  : option nat :=
  match s with
  | c :: t => if ok c then option_map S (k t) else None
  | [] => None
  end.

(** [match_here p s]: the length of the match of [p] at the start of [s],
    as [re.match] finds it. *)
Fixpoint match_here (p : pattern) : text -> option nat :=
  match p with
  | [] => fun _ => Some 0
  | Chr c :: p' => one (Ascii.eqb c) (match_here p')
  | Cls P :: p' => one P (match_here p')
  | Plus P :: p' => one P (greedy P (match_here p'))
  | Star P :: p' => greedy P (match_here p')
  end.

(** One left-to-right scan deleting the non-overlapping matches, leftmost
    first: [skip] counts the characters of the current match still to be
    dropped.  Every pattern of the filter matches at least two
    characters, so the empty-match rule of [re.sub] never applies. *)
Fixpoint sub_from (m : text -> option nat) (skip : nat) (s : text) : text :=
  match s with
  | [] => []
  | c :: t =>
      match skip with
      | S n => sub_from m n t
      | O =>
          match m s with
          | Some (S n) => sub_from m n t
          | _ => c :: sub_from m 0 t
          end
      end
  end.

(** [re.sub(p, '', s)]. *)
Definition re_sub (p : pattern) (s : text) : text :=
  sub_from (match_here p) 0 s.

(** [s.replace(old, '')] for a non-empty [old]. *)
Definition str_replace (old : text) (s : text) : text :=
  re_sub (map Chr old) s.

(** [re.search(p, s) is not None]. *)
Fixpoint search (p : pattern) (s : text) : bool :=
  match s with
  | [] => is_some (match_here p [])
  | _ :: t => is_some (match_here p s) || search p t
  end.

End Regex.

(* ================================================================== *)
(** ** [TerminalAPI._filter_output] *)
(* ================================================================== *)

Module Filter.
Import Regex.

Definition ESC : ascii := "027"%char.
Definition BEL : ascii := "007"%char.
Definition ETB : ascii := "023"%char.
Definition CAN : ascii := "024"%char.
Definition FS  : ascii := "028"%char.

Definition is_digit (c : ascii) : bool :=
  (48 <=? nat_of_ascii c) && (nat_of_ascii c <=? 57).

(** [[\d;]] *)
Definition digit_or_semi (c : ascii) : bool :=
  is_digit c || Ascii.eqb c ";".

(** [[hl]] *)
Definition h_or_l (c : ascii) : bool :=
  Ascii.eqb c "h" || Ascii.eqb c "l".

(** [[^x]] *)
Definition other_than (x c : ascii) : bool := negb (Ascii.eqb c x).

Definition DA_TAIL : text := lit "23;24;28;32;42c".

(** [\x1b\[\?[\d;]+c] *)
Definition DA : pattern :=
  [Chr ESC; Chr "["; Chr "?"; Plus digit_or_semi; Chr "c"].

(** [\x1b\[\d+;\d+R] *)
Definition CPR : pattern :=
  [Chr ESC; Chr "["; Plus is_digit; Chr ";"; Plus is_digit; Chr "R"].

(** [\x1b\[\?<id>[hl]] *)
Definition MODE (id : string) : pattern :=
  Chr ESC :: Chr "[" :: Chr "?" :: map Chr (lit id) ++ [Cls h_or_l].

Definition CSI_S : pattern := [Chr ESC; Chr "["; Chr "s"].
Definition CSI_U : pattern := [Chr ESC; Chr "["; Chr "u"].
Definition DECSC : pattern := [Chr ESC; Chr "7"].
Definition DECRC : pattern := [Chr ESC; Chr "8"].

(** [\x1b\][^\x07]*\x07] *)
Definition OSC_BEL : pattern :=
  [Chr ESC; Chr "]"; Star (other_than BEL); Chr BEL].

(** [\x1b\][^\x1b]*\x1b\\\\] in a raw string literal: the regular
    expression ends in two escaped backslashes, so the terminator it
    matches is ESC followed by two backslash characters. *)
Definition OSC_ST : pattern :=
  [Chr ESC; Chr "]"; Star (other_than ESC); Chr ESC; Chr "\"; Chr "\"].

Definition _filter_output (data : text) : text :=
  match data with
  | [] => data
  | _ =>
      let filtered := data in
      let filtered := str_replace DA_TAIL filtered in
      let filtered := re_sub DA filtered in
      let filtered := re_sub CPR filtered in
      let filtered := re_sub (MODE "2004") filtered in
      let filtered := re_sub (MODE "1049") filtered in
      let filtered := re_sub (MODE "1") filtered in
      let filtered := re_sub (MODE "25") filtered in
      let filtered := re_sub (MODE "1000") filtered in
      let filtered := re_sub (MODE "1002") filtered in
      let filtered := re_sub (MODE "1003") filtered in
      let filtered := re_sub (MODE "1006") filtered in
      let filtered := re_sub CSI_S filtered in
      let filtered := re_sub CSI_U filtered in
      let filtered := re_sub DECSC filtered in
      let filtered := re_sub DECRC filtered in
      let filtered := re_sub OSC_BEL filtered in
      let filtered := re_sub OSC_ST filtered in
      let filtered := str_replace [ETB] filtered in
      let filtered := str_replace [CAN] filtered in
      let filtered := str_replace [FS] filtered in
      filtered
  end.

(** The control-response patterns the specification calls recognized.
    The last one follows the specification's words (an OSC sequence
    terminated by ESC and one backslash), not [OSC_ST]. *)
Definition OSC_ST_spec : pattern :=
  [Chr ESC; Chr "]"; Star (other_than ESC); Chr ESC; Chr "\"].

Definition mode_ids : list string :=
  ["2004"; "1049"; "1"; "25"; "1000"; "1002"; "1003"; "1006"]%string.

Definition recognized : list pattern :=
  DA :: CPR :: map MODE mode_ids ++ [OSC_BEL; OSC_ST_spec].

End Filter.

(* ================================================================== *)
(** ** Chunks made of plain text and intact control sequences *)
(* ================================================================== *)

Module Chunk.
Import Regex Filter.

Inductive mode_id :=
| M2004 | M1049 | M1 | M25 | M1000 | M1002 | M1003 | M1006.

Definition mode_digits (m : mode_id) : string :=
  match m with
  | M2004 => "2004" | M1049 => "1049" | M1 => "1" | M25 => "25"
  | M1000 => "1000" | M1002 => "1002" | M1003 => "1003" | M1006 => "1006"
  end.

Inductive cursor_form := CsiS | CsiU | Dec7 | Dec8.

(** An intact control sequence, by what it is. *)
Inductive ctrl :=
| DeviceAttributes (params : text)      (* ESC [ ? params c *)
| CursorPosition (row col : text)       (* ESC [ row ; col R *)
| ModeToggle (m : mode_id) (set : bool) (* ESC [ ? id h, or l *)
| CursorSaveRestore (f : cursor_form)   (* ESC [ s, ESC [ u, ESC 7, ESC 8 *)
| OscBel (body : text).                 (* ESC ] body BEL *)

(** The characters after the leading ESC. *)
Definition ctrl_body (q : ctrl) : text :=
  match q with
  | DeviceAttributes ps => lit "[?" ++ ps ++ lit "c"
  | CursorPosition r c => lit "[" ++ r ++ lit ";" ++ c ++ lit "R"
  | ModeToggle m set =>
      lit "[?" ++ lit (mode_digits m) ++ (if set then lit "h" else lit "l")
  | CursorSaveRestore CsiS => lit "[s"
  | CursorSaveRestore CsiU => lit "[u"
  | CursorSaveRestore Dec7 => lit "7"
  | CursorSaveRestore Dec8 => lit "8"
  | OscBel body => lit "]" ++ body ++ [BEL]
  end.

Definition nonempty (t : text) : bool :=
  match t with [] => false | _ => true end.

Definition wf_ctrl (q : ctrl) : bool :=
  match q with
  | DeviceAttributes ps => nonempty ps && forallb digit_or_semi ps
  | CursorPosition r c =>
      (nonempty r && forallb is_digit r) && (nonempty c && forallb is_digit c)
  | ModeToggle _ _ => true
  | CursorSaveRestore _ => true
  | OscBel body =>
      forallb (other_than BEL) body && forallb (other_than ESC) body
  end.

(** A chunk is cut into pieces: text without ESC, an intact control
    sequence, or another sequence: ESC and the characters [body]. *)
Inductive piece :=
| Plain (t : text)
| Control (q : ctrl)
| Other (body : text).

Definition render_piece (x : piece) : text :=
  match x with
  | Plain t => t
  | Control q => ESC :: ctrl_body q
  | Other body => ESC :: body
  end.

Definition render (ps : list piece) : text := flat_map render_piece ps.

Definition is_control (x : piece) : bool :=
  match x with Control _ => true | _ => false end.

(** A chunk with its intact control sequences taken out. *)
Definition without_controls (ps : list piece) : list piece :=
  filter (fun x => negb (is_control x)) ps.

(** The fifteen passes of the filter whose pattern is one control
    sequence, and the pass that removes a given sequence. *)
Inductive pass :=
| PDA | PCPR | PMODE (m : mode_id) | PCUR (f : cursor_form) | POSC.

Definition pattern_of (k : pass) : pattern :=
  match k with
  | PDA => DA
  | PCPR => CPR
  | PMODE m => MODE (mode_digits m)
  | PCUR CsiS => CSI_S
  | PCUR CsiU => CSI_U
  | PCUR Dec7 => DECSC
  | PCUR Dec8 => DECRC
  | POSC => OSC_BEL
  end.

Definition pass_of (q : ctrl) : pass :=
  match q with
  | DeviceAttributes _ => PDA
  | CursorPosition _ _ => PCPR
  | ModeToggle m _ => PMODE m
  | CursorSaveRestore f => PCUR f
  | OscBel _ => POSC
  end.

Definition pass_eq_dec (a b : pass) : {a = b} + {a <> b}.
Proof. repeat decide equality. Defined.

(** What pass [k] leaves of a chunk. *)
Definition keeps (k : pass) (x : piece) : bool :=
  match x with
  | Control q => if pass_eq_dec k (pass_of q) then false else true
  | _ => true
  end.

(** The passes in the order [_filter_output] applies them. *)
Definition passes : list pass :=
  [PDA; PCPR;
   PMODE M2004; PMODE M1049; PMODE M1; PMODE M25;
   PMODE M1000; PMODE M1002; PMODE M1003; PMODE M1006;
   PCUR CsiS; PCUR CsiU; PCUR Dec7; PCUR Dec8; POSC].

Definition run_passes (ks : list pass) (s : text) : text :=
  fold_left (fun s k => re_sub (pattern_of k) s) ks s.

(** The final three replacements. *)
Definition strip_controls (t : text) : text :=
  filter (fun c => negb (Ascii.eqb FS c))
    (filter (fun c => negb (Ascii.eqb CAN c))
       (filter (fun c => negb (Ascii.eqb ETB c)) t)).

Definition strip_piece (x : piece) : piece :=
  match x with
  | Plain t => Plain (strip_controls t)
  | _ => x
  end.

(** Every pattern the filter applies, and every pattern the
    specification calls recognized. *)
Definition all_patterns : list pattern :=
  map pattern_of passes ++ OSC_ST :: recognized.

(** A sequence on which no pattern matches, whatever follows it. *)
Definition inert (body : text) : Prop :=
  forall p, In p all_patterns ->
            forall rest, match_here p (ESC :: body ++ rest) = None.

(** Neither ESC nor one of ETB, CAN, FS. *)
Definition ordinary (c : ascii) : bool :=
  other_than ESC c && other_than ETB c && other_than CAN c && other_than FS c.

Definition wf_piece (x : piece) : Prop :=
  match x with
  | Plain t => forallb (other_than ESC) t = true
  | Control q => wf_ctrl q = true
  | Other body => forallb ordinary body = true /\ inert body
  end.

End Chunk.

(* ================================================================== *)
(** ** [TerminalAPI]: one session over a pseudo-terminal *)
(* ================================================================== *)

Module Terminal.
Import Filter.

(** The [winpty.PTY] object as the session uses it: its geometry, the
    command line it was asked to spawn, and the texts written to it. *)
Record PTY := mkPTY {
  pty_cols : nat;
  pty_rows : nat;
  pty_spawned : option text;
  pty_input : list text
}.

Inductive thread := Alive | Exited.

Inductive exn :=
| RuntimeError (msg : string)
| DriverError       (* raised by the pseudo-terminal *)
| AttributeError    (* a method of [None] *)
| ValueError        (* [time.sleep] of a negative duration *)
| OverflowError     (* [time.sleep] of a duration beyond its range *)
| UnicodeEncodeError (* [print] of a text standard output cannot encode *)
| KeyError
| OSError.

Inductive outcome (A : Type) :=
| Returns (a : A)
| Raises (e : exn).
Arguments Returns {A} a.
Arguments Raises {A} e.

Definition raised {A} (o : outcome A) : bool :=
  match o with Raises _ => true | Returns _ => false end.

(** The fields of the object, and [log_file]: the content of the file at
    [log_path], which only this object's reader thread appends to. *)
Record TerminalAPI := mkTerminalAPI {
  cols : nat;
  rows : nat;
  shell_command : text;
  log_path : option text;
  process : option PTY;
  _output_buffer : list text;
  _running : bool;
  _output_thread : option thread;
  log_file : text
}.

Definition set_process (p : option PTY) (s : TerminalAPI) : TerminalAPI :=
  mkTerminalAPI (cols s) (rows s) (shell_command s) (log_path s) p
                (_output_buffer s) (_running s) (_output_thread s) (log_file s).

Definition set_output_buffer (b : list text) (s : TerminalAPI) : TerminalAPI :=
  mkTerminalAPI (cols s) (rows s) (shell_command s) (log_path s) (process s)
                b (_running s) (_output_thread s) (log_file s).

Definition set_running (r : bool) (s : TerminalAPI) : TerminalAPI :=
  mkTerminalAPI (cols s) (rows s) (shell_command s) (log_path s) (process s)
                (_output_buffer s) r (_output_thread s) (log_file s).

Definition set_output_thread (t : option thread) (s : TerminalAPI)
  : TerminalAPI :=
  mkTerminalAPI (cols s) (rows s) (shell_command s) (log_path s) (process s)
                (_output_buffer s) (_running s) t (log_file s).

Definition set_log_file (l : text) (s : TerminalAPI) : TerminalAPI :=
  mkTerminalAPI (cols s) (rows s) (shell_command s) (log_path s) (process s)
                (_output_buffer s) (_running s) (_output_thread s) l.

(** [deque(maxlen=10000)] *)
#[warnings="-abstract-large-number"]
Definition MAXLEN : nat := 10000.

(** [deque.append] on a bounded deque: the element goes to the right end
    and, when that exceeds [maxlen], the leftmost element is dropped. *)
Definition deque_append {A} (maxlen : nat) (d : list A) (x : A) : list A :=
  let d' := d ++ [x] in
  if maxlen <? length d' then tl d' else d'.

Definition DEFAULT_SHELL : text := lit "cmd.exe /c wsl -d kali-linux".

(** [TerminalAPI.__init__] *)
Definition __init__ (cols rows : nat) (shell_command : text)
           (log_path : option text) (log_file : text) : TerminalAPI :=
  mkTerminalAPI cols rows shell_command log_path None [] false None log_file.

(** Truth value of an optional string: [None] and the empty string are
    false. *)
Definition truthy (o : option text) : bool :=
  match o with Some (_ :: _) => true | _ => false end.

(** *** The reader thread *)

Definition CR : ascii := "013"%char.
Definition LF : ascii := "010"%char.

(** What [f.write] stores of a text.  The log file is opened in text mode
    with the default newline handling, under which every line feed
    written is stored as the line separator of the platform.  The session
    runs on Windows only (it drives [winpty] and calls
    [ctypes.windll]), where the separator is CR LF; a carriage return
    written is stored as it is, so a CR LF written is stored as CR CR
    LF. *)
Definition text_mode (t : text) : text :=
  flat_map (fun c => if Ascii.eqb c LF then [CR; LF] else [c]) t.

(** What one poll of the loop meets: the result of the non-blocking read,
    and whether the append to the log file goes through. *)
Inductive read_result :=
| ReadData (data : text)
| ReadRaises.

Record poll := mkPoll { read : read_result; log_ok : bool }.

(** One iteration of [_read_output_loop], sleep included.  The loop ends
    (the thread exits) when [_running] is false or the read raises. *)
Definition reader_poll (ev : poll) (s : TerminalAPI) : TerminalAPI :=
  match _output_thread s with
  | Some Alive =>
      if negb (_running s) then set_output_thread (Some Exited) s
      else
        match process s, read ev with
        | None, _ => set_output_thread (Some Exited) s
        | Some _, ReadRaises => set_output_thread (Some Exited) s
        | Some _, ReadData data =>
            match data with
            | [] => s
            | _ =>
                let filtered_data := _filter_output data in
                match filtered_data with
                | [] => s
                | _ =>
                    let s := set_output_buffer
                               (deque_append MAXLEN (_output_buffer s)
                                             filtered_data) s in
                    if truthy (log_path s) && log_ok ev
                    then set_log_file
                           (log_file s ++ text_mode filtered_data) s
                    else s
                end
            end
        end
  | _ => s
  end.

(** The chunk, if any, that the iteration appends to the buffer. *)
Definition poll_appends (ev : poll) (s : TerminalAPI) : list text :=
  match _output_thread s, _running s, process s, read ev with
  | Some Alive, true, Some _, ReadData (c :: data) =>
      match _filter_output (c :: data) with
      | [] => []
      | filtered_data => [filtered_data]
      end
  | _, _, _, _ => []
  end.

(** The chunks the reader thread appends along a series of polls, in
    order. *)
Fixpoint reader_appends (polls : list poll) (s : TerminalAPI) : list text :=
  match polls with
  | [] => []
  | ev :: polls' => poll_appends ev s ++ reader_appends polls' (reader_poll ev s)
  end.

(** The reader thread running through a series of polls while the caller
    sleeps. *)
Definition reader_run (polls : list poll) (s : TerminalAPI) : TerminalAPI :=
  fold_left (fun s ev => reader_poll ev s) polls s.

(** *** Methods: state and exception passing *)

Definition M (A : Type) := TerminalAPI -> outcome A * TerminalAPI.

Definition ret {A} (a : A) : M A := fun s => (Returns a, s).
Definition raise {A} (e : exn) : M A := fun s => (Raises e, s).
Definition bind {A B} (m : M A) (f : A -> M B) : M B :=
  fun s =>
    match m s with
    | (Returns a, s') => f a s'
    | (Raises e, s') => (Raises e, s')
    end.
Definition get {A} (f : TerminalAPI -> A) : M A := fun s => (Returns (f s), s).
Definition modify (f : TerminalAPI -> TerminalAPI) : M unit :=
  fun s => (Returns tt, f s).

Notation "x <- m ;; k" := (bind m (fun x => k))
  (at level 61, m at next level, right associativity).
Notation "m ;;; k" := (bind m (fun _ => k))
  (at level 61, right associativity).

(** The range of [time.sleep].  CPython (3.11 and later) turns the
    duration into a count of nanoseconds, rounded away from zero, that has
    to fit a signed 64-bit integer, and raises [OverflowError] when it
    does not; in seconds, the durations from -2^63 / 10^9 to
    (2^63 - 1) / 10^9 fit.  A duration is the rational number the float
    denotes; the infinities and NaN are left out. *)
Definition SLEEP_MAX : Q := 9223372036854775807 # 1000000000.
Definition SLEEP_MIN : Q := (-9223372036854775808) # 1000000000.

(** [time.sleep(t)]: the conversion comes first, then the refusal of a
    negative duration; the reader thread runs its [polls] meanwhile. *)
Definition sleep (t : Q) (polls : list poll) : M unit :=
  if Qle_bool 0 t then
    if Qle_bool t SLEEP_MAX then modify (reader_run polls)
    else raise OverflowError
  else
    if Qle_bool SLEEP_MIN t then raise ValueError
    else raise OverflowError.

(** The pseudo-terminal after it took the text [t]. *)
Definition pty_write (t : text) (pty : PTY) : PTY :=
  mkPTY (pty_cols pty) (pty_rows pty) (pty_spawned pty) (pty_input pty ++ [t]).

(** [self.process.write(text)], which the pseudo-terminal may refuse. *)
Definition process_write (t : text) (accepted : bool) : M unit :=
  p <- get process ;;
  match p with
  | None => raise AttributeError
  | Some pty =>
      if accepted then modify (set_process (Some (pty_write t pty)))
      else raise DriverError
  end.

(** How the pseudo-terminal answers [PTY(cols, rows)] and [spawn]. *)
Inductive spawn_result := PtyRaises | SpawnRaises | Spawned.

Definition ALREADY_RUNNING : exn :=
  RuntimeError "Terminal session already running".
Definition NOT_STARTED : exn :=
  RuntimeError "Terminal session not started".

Definition start (spawn : spawn_result) (boot : list poll) : M unit :=
  running <- get _running ;;
  if running : bool then raise ALREADY_RUNNING
  else
    match spawn with
    | PtyRaises => raise DriverError
    | SpawnRaises =>
        c <- get cols ;; r <- get rows ;;
        modify (set_process (Some (mkPTY c r None []))) ;;;
        raise DriverError
    | Spawned =>
        c <- get cols ;; r <- get rows ;; cmd <- get shell_command ;;
        modify (set_process (Some (mkPTY c r (Some cmd) []))) ;;;
        modify (set_running true) ;;;
        modify (set_output_thread (Some Alive)) ;;;
        sleep (1 # 2) boot
    end.

Definition write (t : text) (accepted : bool) : M unit :=
  running <- get _running ;;
  if negb running then raise NOT_STARTED
  else process_write t accepted.

Definition read_output (timeout : Q) (polls : list poll) : M text :=
  (if negb (Qle_bool timeout 0) then sleep timeout polls else ret tt) ;;;
  output <- get (fun s => concat (_output_buffer s)) ;;
  modify (set_output_buffer []) ;;;
  ret output.

Definition send_command (command : text) (wait_time : Q)
           (accepted : bool) (polls : list poll) : M text :=
  running <- get _running ;;
  if negb running then raise NOT_STARTED
  else
    modify (set_output_buffer []) ;;;
    process_write (command ++ [CR]) accepted ;;;
    sleep wait_time polls ;;;
    read_output 0 [].

(** [get_latest_output]: [list(self._output_buffer)[-lines:]] joined, the
    buffer left as it is.  The slice is the whole buffer for 0 and all but
    the first [-lines] chunks for a negative count. *)
Definition get_latest_output (lines : Z) (s : TerminalAPI) : text :=
  let b := _output_buffer s in
  let start :=
    if (0 <? lines)%Z then length b - Z.to_nat lines
    else Z.to_nat (- lines) in
  concat (skipn start b).

Definition is_alive (s : TerminalAPI) : bool :=
  _running s &&
  match _output_thread s with Some Alive => true | _ => false end.

(** [close]: [joined] says whether the reader thread left its loop within
    the second the join waits for it. *)
Definition close (joined : bool) (s : TerminalAPI) : TerminalAPI :=
  if _running s then
    let s := set_running false s in
    let s := match _output_thread s with
             | Some Alive =>
                 if joined then set_output_thread (Some Exited) s else s
             | _ => s
             end in
    set_process None s
  else s.

(** What holds of a session object throughout (see [TerminalFacts]): no
    chunk in the buffer is empty, and a running session has its
    pseudo-terminal. *)
Definition clean_buffer (s : TerminalAPI) : Prop :=
  Forall (fun chunk : text => chunk <> []) (_output_buffer s).

Definition invariant (s : TerminalAPI) : Prop :=
  clean_buffer s /\ (_running s = true -> process s <> None).

(** The states a session object goes through. *)
Inductive reachable : TerminalAPI -> Prop :=
| reach_init c r cmd lp lf : reachable (__init__ c r cmd lp lf)
| reach_start spawn boot s :
    reachable s -> reachable (snd (start spawn boot s))
| reach_write t ok s :
    reachable s -> reachable (snd (write t ok s))
| reach_send_command cmd w ok polls s :
    reachable s -> reachable (snd (send_command cmd w ok polls s))
| reach_read_output t polls s :
    reachable s -> reachable (snd (read_output t polls s))
| reach_reader_poll ev s :
    reachable s -> reachable (reader_poll ev s)
| reach_close j s :
    reachable s -> reachable (close j s).

End Terminal.

(* ================================================================== *)
(** ** [SessionManager]: the registry of sessions *)
(* ================================================================== *)

Module Registry.
Import Terminal.

Fixpoint text_eqb (a b : text) : bool :=
  match a, b with
  | [], [] => true
  | x :: a', y :: b' => Ascii.eqb x y && text_eqb a' b'
  | _, _ => false
  end.

(** *** Python dictionaries, in insertion order *)

Definition dict (V : Type) := list (text * V).

Definition keys {V} (d : dict V) : list text := map fst d.

(** [d.get(k)] *)
Fixpoint dict_get {V} (k : text) (d : dict V) : option V :=
  match d with
  | [] => None
  | (k', v) :: d' => if text_eqb k k' then Some v else dict_get k d'
  end.

(** [k in d] *)
Definition dict_mem {V} (k : text) (d : dict V) : bool :=
  is_some (dict_get k d).

(** [d[k] = v]: a present key keeps its place, a new one goes last. *)
Fixpoint dict_set {V} (k : text) (v : V) (d : dict V) : dict V :=
  match d with
  | [] => [(k, v)]
  | (k', v') :: d' =>
      if text_eqb k k' then (k, v) :: d' else (k', v') :: dict_set k v d'
  end.

(** [del d[k]] for a key that is present. *)
Fixpoint dict_del {V} (k : text) (d : dict V) : dict V :=
  match d with
  | [] => []
  | (k', v') :: d' =>
      if text_eqb k k' then d' else (k', v') :: dict_del k d'
  end.

(** The keys of a dictionary after an assignment to [k], and after the
    deletion of [k]. *)
Definition has_key (k : text) (ks : list text) : bool :=
  existsb (text_eqb k) ks.

Definition add_key (k : text) (ks : list text) : list text :=
  if has_key k ks then ks else ks ++ [k].

Fixpoint del_key (k : text) (ks : list text) : list text :=
  match ks with
  | [] => []
  | k' :: ks' => if text_eqb k k' then ks' else k' :: del_key k ks'
  end.

(** *** The registry *)

(** [{"name": str, "created_at": float}] *)
Record meta := mkMeta { name : text; created_at : Q }.

(** [{"command": str, "timestamp": float}] *)
Record entry := mkEntry { command : text; timestamp : Q }.

Record SessionManager := mkSessionManager {
  _sessions : dict TerminalAPI;
  _history : dict (list entry);
  _metadata : dict meta
}.

(** [SessionManager.__init__] *)
Definition empty : SessionManager := mkSessionManager [] [] [].

(** [str.isalnum] on the code points below 256. *)
Definition isalnum (c : ascii) : bool :=
  let n := nat_of_ascii c in
  ((48 <=? n) && (n <=? 57)) || ((65 <=? n) && (n <=? 90))
  || ((97 <=? n) && (n <=? 122))
  || (n =? 170) || (n =? 178) || (n =? 179) || (n =? 181) || (n =? 185)
  || (n =? 186) || ((188 <=? n) && (n <=? 190))
  || ((192 <=? n) && (n <=? 214)) || ((216 <=? n) && (n <=? 246))
  || (248 <=? n).

(** Whitespace as [str.strip] sees it, below 256. *)
Definition isspace (c : ascii) : bool :=
  let n := nat_of_ascii c in
  ((9 <=? n) && (n <=? 13)) || ((28 <=? n) && (n <=? 32))
  || (n =? 133) || (n =? 160).

Fixpoint lstrip (t : text) : text :=
  match t with
  | c :: t' => if isspace c then lstrip t' else t
  | [] => []
  end.

Definition strip (t : text) : text := rev (lstrip (rev (lstrip t))).

(** The file-name component made of a session name. *)
Definition safe_name (name : text) : text :=
  let kept c := isalnum c || Ascii.eqb c " " || Ascii.eqb c "-"
                || Ascii.eqb c "_" in
  map (fun c => if Ascii.eqb c " " then "_"%char else c)
      (strip (filter kept name)).

(** What the world supplies to one [create_session] call. *)
Record create_env := mkCreateEnv {
  uuid4 : text;               (* [str(uuid.uuid4())] *)
  makedirs_ok : bool;         (* [os.makedirs] goes through *)
  log_before : text;          (* what the log file holds already *)
  spawn : spawn_result;
  boot : list poll;           (* reader polls during the sleep of start *)
  settle : list poll;         (* ... during the second of settling *)
  interrupt_ok : bool;        (* the pseudo-terminal takes the Ctrl+C *)
  echo : list poll;           (* ... during the tenth of a second after *)
  now : Q;                    (* [time.time()] *)
  print_ok : bool             (* the [print] of the confirmation goes
                                 through: standard output can encode
                                 the name *)
}.

Definition ETX : ascii := "003"%char.

Definition _perform_startup_cleanup (env : create_env) : M unit :=
  sleep 1 (settle env) ;;;
  _ <- read_output 0 [] ;;
  write [ETX] (interrupt_ok env) ;;;
  sleep (1 # 10) (echo env) ;;;
  _ <- read_output 0 [] ;;
  ret tt.

Definition create_session (env : create_env) (name : option text)
           (cols rows : nat) (shell_command : option text)
           (m : SessionManager) : outcome text * SessionManager :=
  let session_id := uuid4 env in
  let name :=
    if truthy name then match name with Some n => n | None => [] end
    else lit "Session-" ++ firstn 8 session_id in
  if negb (makedirs_ok env) then (Raises OSError, m)
  else
    let log_path :=
      lit "logs/" ++ safe_name name ++ lit "_" ++ firstn 8 session_id
          ++ lit ".log" in
    let terminal :=
      if truthy shell_command
      then __init__ cols rows
                    (match shell_command with Some c => c | None => [] end)
                    (Some log_path) (log_before env)
      else __init__ cols rows DEFAULT_SHELL (Some log_path) (log_before env) in
    match (start (spawn env) (boot env) ;;;
           _perform_startup_cleanup env) terminal with
    | (Raises e, _) => (Raises e, m)
    | (Returns _, terminal) =>
        let m :=
          mkSessionManager
            (dict_set session_id terminal (_sessions m))
            (dict_set session_id [] (_history m))
            (dict_set session_id (mkMeta name (now env)) (_metadata m)) in
        if print_ok env then (Returns session_id, m)
        else (Raises UnicodeEncodeError, m)
    end.


(** The scan of [_metadata.items()] for the first session of a name. *)
Fixpoint first_named (identifier : text) (items : dict meta) : option text :=
  match items with
  | [] => None
  | (sid, meta) :: items' =>
      if text_eqb (name meta) identifier then Some sid
      else first_named identifier items'
  end.

Definition _resolve_id (m : SessionManager) (identifier : text)
  : option text :=
  if dict_mem identifier (_sessions m) then Some identifier
  else first_named identifier (_metadata m).

(** Truth value of an optional id, as in [if sid:]. *)
Definition some_nonempty (o : option text) : bool :=
  match o with Some (_ :: _) => true | _ => false end.

Definition record_command (identifier command : text) (now : Q)
           (m : SessionManager) : SessionManager :=
  match _resolve_id m identifier with
  | Some sid =>
      match some_nonempty (Some sid), dict_get sid (_history m) with
      | true, Some h =>
          mkSessionManager
            (_sessions m)
            (dict_set sid (h ++ [mkEntry command now]) (_history m))
            (_metadata m)
      | _, _ => m
      end
  | None => m
  end.

(** What a function declared to return a list may hand to its caller. *)
Inductive pyvalue :=
| PyNone
| PyList (items : list entry).

Definition get_history (m : SessionManager) (identifier : text) : pyvalue :=
  let sid := _resolve_id m identifier in
  if some_nonempty sid then
    match sid with
    | Some sid =>
        match dict_get sid (_history m) with
        | Some h => PyList h
        | None => PyList []
        end
    | None => PyList []
    end
  else PyList [].

Definition get_session (m : SessionManager) (identifier : text)
  : outcome (option TerminalAPI) :=
  match dict_get identifier (_sessions m) with
  | Some t => Returns (Some t)
  | None =>
      match first_named identifier (_metadata m) with
      | Some sid =>
          match dict_get sid (_sessions m) with
          | Some t => Returns (Some t)
          | None => Raises KeyError
          end
      | None => Returns None
      end
  end.

Record session_info := mkSessionInfo {
  info_id : text;
  info_name : text;
  info_alive : bool;
  info_created_at : Q;
  info_log_path : option text
}.

Definition list_sessions (m : SessionManager) : list session_info :=
  map (fun it : text * TerminalAPI =>
         let (sid, t) := it in
         match dict_get sid (_metadata m) with
         | Some meta =>
             mkSessionInfo sid (name meta) (is_alive t) (created_at meta)
                           (log_path t)
         | None =>
             mkSessionInfo sid (lit "Unknown") (is_alive t) 0 (log_path t)
         end)
      (_sessions m).

(** [kill_session]: the result, the session object after [close] (which
    whoever still holds it sees), and the registry.  [joined]: see
    [Terminal.close]. *)
Definition kill_session (identifier : text) (joined : bool)
           (m : SessionManager)
  : (bool * option TerminalAPI) * SessionManager :=
  let session_id := _resolve_id m identifier in
  match session_id with
  | Some sid =>
      match some_nonempty session_id, dict_get sid (_sessions m) with
      | true, Some terminal =>
          let terminal := close joined terminal in
          let sessions := dict_del sid (_sessions m) in
          let history :=
            if dict_mem sid (_history m) then dict_del sid (_history m)
            else _history m in
          let metadata :=
            if dict_mem sid (_metadata m) then dict_del sid (_metadata m)
            else _metadata m in
          ((true, Some terminal), mkSessionManager sessions history metadata)
      | _, _ => ((false, None), m)
      end
  | None => ((false, None), m)
  end.

(** [cleanup_all]: every session closed, the three maps cleared. *)
Definition cleanup_all (m : SessionManager) : SessionManager :=
  mkSessionManager [] [] [].

(** A caller that holds a session object obtained from [get_session]
    changes it in place; the registry then maps the same id to the
    changed object. *)
Definition with_session (sid : text) (f : TerminalAPI -> TerminalAPI)
           (m : SessionManager) : SessionManager :=
  match dict_get sid (_sessions m) with
  | Some t =>
      mkSessionManager (dict_set sid (f t) (_sessions m))
                       (_history m) (_metadata m)
  | None => m
  end.

(** The three maps hold the same ids, in the same order, each once. *)
Definition aligned (m : SessionManager) : Prop :=
  keys (_sessions m) = keys (_history m)
  /\ keys (_history m) = keys (_metadata m)
  /\ NoDup (keys (_sessions m)).

(** The registry states a server process goes through. *)
Inductive reachable : SessionManager -> Prop :=
| reach_empty : reachable empty
| reach_create env name cols rows cmd m :
    reachable m ->
    reachable (snd (create_session env name cols rows cmd m))
| reach_record identifier command now m :
    reachable m -> reachable (record_command identifier command now m)
| reach_kill identifier joined m :
    reachable m -> reachable (snd (kill_session identifier joined m))
| reach_cleanup m :
    reachable m -> reachable (cleanup_all m)
| reach_with_session sid f m :
    reachable m -> reachable (with_session sid f m).

End Registry.

(* ================================================================== *)
(** ** The history endpoint of [server.py] *)
(* ================================================================== *)

Module Server.
Import Registry.

Inductive response :=
| Ok200 (body : list entry)
| NotFound404 (detail : string).

(** [GET /sessions/{session_id}/history] *)
Definition get_history (sess_manager : SessionManager) (session_id : text)
  : response :=
  let history := Registry.get_history sess_manager session_id in
  match history with
  | PyNone => NotFound404 "Session history not found"
  | PyList items => Ok200 items
  end.

End Server.

(* ================================================================== *)
(** ** The reader thread and a draining caller, step by step *)
(* ================================================================== *)

Module Interleaving.
Import Terminal.

(** The operations on [_output_buffer], one step each: the reader
    thread's [append] (line 119), and the two statements of
    [read_output], [output = ''.join(...)] (line 205) and [clear()]
    followed by [return output] (lines 206-207).  No lock is taken
    around any of them. *)
Inductive event :=
| Append (chunk : text)
| Join
| Clear.

(** How a text left the buffer. *)
Inductive departure :=
| Drained (output : text)   (* returned by a drain *)
| Evicted (chunk : text).   (* dropped by the bound of the deque *)

Definition payload (d : departure) : text :=
  match d with Drained t => t | Evicted t => t end.

Record state := mkState {
  buffer : list text;
  output : option text;        (* the caller's local, between 205 and 206 *)
  departed : list departure
}.

Definition initial : state := mkState [] None [].

Definition step (e : event) (s : state) : option state :=
  match e, output s with
  | Append x, _ =>
      let full := buffer s ++ [x] in
      Some (mkState (deque_append MAXLEN (buffer s) x) (output s)
                    (if MAXLEN <? length full
                     then departed s ++ map Evicted (firstn 1 full)
                     else departed s))
  | Join, None => Some (mkState (buffer s) (Some (concat (buffer s)))
                                (departed s))
  | Clear, Some o => Some (mkState [] None (departed s ++ [Drained o]))
  | _, _ => None               (* not the caller's program order *)
  end.

Fixpoint run (tr : list event) (s : state) : option state :=
  match tr with
  | [] => Some s
  | e :: tr' =>
      match step e s with
      | Some s' => run tr' s'
      | None => None
      end
  end.

(** The chunks the reader thread appended along a schedule. *)
Fixpoint appended (tr : list event) : list text :=
  match tr with
  | [] => []
  | Append x :: tr' => x :: appended tr'
  | _ :: tr' => appended tr'
  end.

(** The texts the drains returned. *)
Fixpoint drained (ds : list departure) : list text :=
  match ds with
  | [] => []
  | Drained o :: ds' => o :: drained ds'
  | Evicted _ :: ds' => drained ds'
  end.

Definition was_drained (d : departure) : bool :=
  match d with Drained _ => true | Evicted _ => false end.

(** Schedules in which no append falls between the two statements of a
    drain. *)
Inductive atomic : list event -> Prop :=
| atomic_nil : atomic []
| atomic_append x tr : atomic tr -> atomic (Append x :: tr)
| atomic_drain tr : atomic tr -> atomic (Join :: Clear :: tr).

End Interleaving.


(* ================================================================== *)
(** ** Sample inputs *)
(* ================================================================== *)

Module Samples.
Import Filter Chunk Terminal Registry Interleaving.

(** A cursor-hide toggle inside the parameters of a Device-Attributes
    response. *)
Definition nested_chunk : text :=
  ESC :: lit "[?1" ++ ESC :: lit "[?25h" ++ lit "c".

(** Prompt text around intact control sequences of every kind, and a
    colour reset, which no pattern matches. *)
Definition sample_chunk : list piece :=
  [Plain (lit "ab");
   Control (ModeToggle M2004 true);
   Control (DeviceAttributes (lit "61;6"));
   Plain (lit "hel" ++ ETB :: lit "lo");
   Control (CursorPosition (lit "12") (lit "40"));
   Control (OscBel (lit "0;title"));
   Control (CursorSaveRestore Dec7);
   Other (lit "[0m");
   Plain (lit "$ ")].

(** A session object as constructed, and after a successful start. *)
Definition fresh : TerminalAPI := __init__ 120 30 DEFAULT_SHELL None [].

Definition started : TerminalAPI := snd (start Spawned [] fresh).

Definition sample_polls : list poll :=
  [mkPoll (ReadData (lit "ls" ++ [CR])) true;
   mkPoll (ReadData []) true;
   mkPoll (ReadData (ESC :: lit "[?25l")) true;
   mkPoll (ReadData (lit "a.txt  b.txt")) true].

(** A world in which everything goes through. *)
Definition env_of (id : text) (t : Q) : create_env :=
  mkCreateEnv id true [] Spawned [] [] true [] t true.



Definition id_a : text := lit "0a1b2c3d-0000-4000-8000-000000000001".
Definition id_b : text := lit "9f8e7d6c-0000-4000-8000-000000000002".

(** Two sessions created under the same name, [id_a] first. *)
Definition twins : SessionManager :=
  snd (create_session (env_of id_b 2) (Some (lit "t1")) 80 24 None
         (snd (create_session (env_of id_a 1) (Some (lit "t1")) 80 24 None
                              empty))).

(** A drain with an append scheduled between its two statements, and one
    without. *)
Definition racy_schedule : list event :=
  [Append (lit "a"); Join; Append (lit "b"); Clear].

Definition atomic_schedule : list event :=
  [Append (lit "a"); Join; Clear; Append (lit "b")].

End Samples.

(* ================================================================== *)
(** ** Text with characters deleted *)
(* ================================================================== *)

Module Sublist.

(** [subseq a b]: [a] is [b] with some characters deleted. *)
Inductive subseq {A} : list A -> list A -> Prop :=
| subseq_nil : subseq [] []
| subseq_drop x a b : subseq a b -> subseq a (x :: b)
| subseq_keep x a b : subseq a b -> subseq (x :: a) (x :: b).

End Sublist.

(* ================================================================== *)
(** ** [TerminalAPI] as a context manager, and views of a session *)
(* ================================================================== *)

Module Lifecycle.
Import Terminal.

(** [__enter__], [__exit__] and a [with] block around [body]: [__exit__]
    runs whether or not the body raised, and returns [False], so the
    body's exception goes on to the caller; it does not run when
    [__enter__] raised. *)
Definition __enter__ (spawn : spawn_result) (boot : list poll) : M unit :=
  start spawn boot.

Definition __exit__ (joined : bool) : M bool :=
  bind (modify (close joined)) (fun _ => ret false).

Definition with_block {A} (spawn : spawn_result) (boot : list poll)
           (joined : bool) (body : M A) : M A :=
  fun s =>
    match __enter__ spawn boot s with
    | (Raises e, s1) => (Raises e, s1)
    | (Returns _, s1) =>
        let (result, s2) := body s1 in
        let (_, s3) := __exit__ joined s2 in
        (result, s3)
    end.


(** [a] is the start of [b]. *)
Definition prefix_of (a b : text) : Prop := exists rest, b = a ++ rest.

(** The fields that [__init__] sets from its arguments. *)
Definition config (s : TerminalAPI) : nat * nat * text * option text :=
  (cols s, rows s, shell_command s, log_path s).

(** From [s] to [s']: the configuration kept, the log file only added to. *)
Definition keeps_record (s s' : TerminalAPI) : Prop :=
  config s' = config s /\ prefix_of (log_file s) (log_file s').

(** The buffer holds no more chunks than the deque allows. *)
Definition bounded (s : TerminalAPI) : Prop :=
  length (_output_buffer s) <= MAXLEN.

End Lifecycle.

(* ================================================================== *)
(** ** Characters of log file names *)
(* ================================================================== *)

Module Names.
Import Registry.

(** The characters a safe name is made of. *)
Definition name_char (c : ascii) : bool :=
  isalnum c || Ascii.eqb c "-" || Ascii.eqb c "_".

End Names.

(* ================================================================== *)
(** ** The other endpoints of [server.py] *)
(* ================================================================== *)

(** The handlers run one request at a time.  A handler that calls a method
    of a session calls it on the object the registry holds. *)

Module Endpoints.
Import Terminal Registry.

(** [CreateSessionRequest] *)
Record CreateSessionRequest := mkCreateSessionRequest {
  req_name : option text;
  req_distro : option text;
  req_shell_command : option text;
  req_cols : nat;
  req_rows : nat
}.

(** How a handler ends when it does not return: with the [HTTPException]
    it raises, with an exception of the session layer that escapes it, or
    with the [StopIteration] of a [next] that finds nothing. *)
Inductive failure :=
| HTTPException (status_code : nat) (detail : string)
| Escaped (e : exn)
| StopIteration.

Inductive reply (A : Type) :=
| Ok (body : A)
| Failed (f : failure).
Arguments Ok {A} body.
Arguments Failed {A} f.

Definition SESSION_NOT_FOUND : failure :=
  HTTPException 404 "Session not found".
Definition SESSION_DEAD : failure :=
  HTTPException 400 "Session is dead".

(** The command line [create_session] settles on before it calls the
    session manager. *)
Definition launch_command (req : CreateSessionRequest) : option text :=
  let cmd := req_shell_command req in
  let cmd :=
    match cmd with
    | Some c => if text_eqb c (lit "string") then None else cmd
    | None => None
    end in
  if negb (truthy cmd) && truthy (req_distro req)
  then Some (lit "cmd.exe /c wsl -d "
             ++ match req_distro req with Some d => d | None => [] end)
  else cmd.

(** [POST /sessions] *)
Definition create_session (env : create_env) (req : CreateSessionRequest)
           (m : SessionManager) : reply session_info * SessionManager :=
  match Registry.create_session env (req_name req) (req_cols req)
                                (req_rows req) (launch_command req) m with
  | (Raises e, m) => (Failed (Escaped e), m)
  | (Returns session_id, m) =>
      let sessions := Registry.list_sessions m in
      match find (fun s => text_eqb (info_id s) session_id) sessions with
      | Some session_info => (Ok session_info, m)
      | None => (Failed StopIteration, m)
      end
  end.

(** [GET /sessions] *)
Definition list_sessions (m : SessionManager) : list session_info :=
  Registry.list_sessions m.

(** [DELETE /sessions/{session_id}]: the body names the identifier of the
    request. *)
Definition kill_session (session_id : text) (joined : bool)
           (m : SessionManager) : reply text * SessionManager :=
  let (r, m') := Registry.kill_session session_id joined m in
  if fst r then (Ok session_id, m') else (Failed SESSION_NOT_FOUND, m').

(** A method called on the session object [get_session] handed out: the
    object is the registry's own, so the registry holds what the method
    left of it. *)
Definition call {A} (identifier : text) (method : M A)
           (session : TerminalAPI) (m : SessionManager)
  : reply A * SessionManager :=
  let m' := match _resolve_id m identifier with
            | Some sid => with_session sid (fun s => snd (method s)) m
            | None => m
            end in
  (match fst (method session) with
   | Returns a => Ok a
   | Raises e => Failed (Escaped e)
   end, m').

(** [POST /sessions/{session_id}/command]; [now] is the clock at the
    history entry, [accepted] and [polls] what the pseudo-terminal and
    the reader thread do meanwhile. *)
Definition send_command (session_id command : text) (now : Q)
           (accepted : bool) (polls : list poll) (m : SessionManager)
  : reply text * SessionManager :=
  match get_session m session_id with
  | Raises e => (Failed (Escaped e), m)
  | Returns None => (Failed SESSION_NOT_FOUND, m)
  | Returns (Some session) =>
      if negb (is_alive session) then (Failed SESSION_DEAD, m)
      else
        let m := record_command session_id command now m in
        call session_id
             (Terminal.send_command command (1 # 2) accepted polls)
             session m
  end.

(** [POST /sessions/{session_id}/input] *)
Definition send_raw_input (session_id command : text)
           (accepted : bool) (polls : list poll) (m : SessionManager)
  : reply text * SessionManager :=
  match get_session m session_id with
  | Raises e => (Failed (Escaped e), m)
  | Returns None => (Failed SESSION_NOT_FOUND, m)
  | Returns (Some session) =>
      if negb (is_alive session) then (Failed SESSION_DEAD, m)
      else
        call session_id
             (write command accepted ;;; read_output (1 # 20) polls)
             session m
  end.

(** [GET /sessions/{session_id}/output] *)
Definition get_output (session_id : text) (timeout : Q)
           (polls : list poll) (m : SessionManager)
  : reply text * SessionManager :=
  match get_session m session_id with
  | Raises e => (Failed (Escaped e), m)
  | Returns None => (Failed SESSION_NOT_FOUND, m)
  | Returns (Some session) =>
      call session_id (read_output timeout polls) session m
  end.

(** The shutdown hook. *)
Definition shutdown_event (m : SessionManager) : SessionManager :=
  cleanup_all m.

End Endpoints.

(* ================================================================== *)
(** ** More sample values *)
(* ================================================================== *)

Module MoreSamples.
Import Terminal Registry Samples.


End MoreSamples.

(* ================================================================== *)
(** * Properties *)
(* ================================================================== *)

(* ================================================================== *)
(** ** Facts about the scan *)
(* ================================================================== *)

Module RegexFacts.
Import Regex.

Lemma sub_from_skip (m : text -> option nat) (a rest : text) :
  sub_from m (length a) (a ++ rest) = sub_from m 0 rest.
Proof.
  induction a as [|c a IH]; simpl; [reflexivity | exact IH].
Qed.

Lemma sub_from_hit (m : text -> option nat) (c : ascii) (a rest : text) :
  m (c :: a ++ rest) = Some (S (length a)) ->
  sub_from m 0 (c :: a ++ rest) = sub_from m 0 rest.
Proof.
  intros H. simpl. rewrite H. apply sub_from_skip.
Qed.

Lemma sub_from_miss (m : text -> option nat) (c : ascii) (t : text) :
  m (c :: t) = None ->
  sub_from m 0 (c :: t) = c :: sub_from m 0 t.
Proof.
  intros H. simpl. rewrite H. reflexivity.
Qed.

(** A text in which the pattern matches nowhere is left as it is. *)
Lemma re_sub_no_match (p : pattern) :
  forall s : text, search p s = false -> re_sub p s = s.
Proof.
  unfold re_sub.
  induction s as [|c t IH]; intros H; [reflexivity|].
  simpl in H. apply orb_false_elim in H as [Hm Ht].
  destruct (match_here p (c :: t)) as [n|] eqn:E; [discriminate|].
  rewrite sub_from_miss by exact E. f_equal. apply IH, Ht.
Qed.

(** A pattern that starts with the literal [e] matches only where the
    text has [e]. *)
Lemma match_here_first (e : ascii) (p : pattern) (c : ascii) (t : text) :
  c <> e -> match_here (Chr e :: p) (c :: t) = None.
Proof.
  intros Hne. simpl.
  destruct (Ascii.eqb e c) eqn:E; [|reflexivity].
  apply Ascii.eqb_eq in E. congruence.
Qed.

Lemma sub_from_plain (e : ascii) (p : pattern) (rest : text) :
  forall t : text, Forall (fun c => c <> e) t ->
    sub_from (match_here (Chr e :: p)) 0 (t ++ rest)
    = t ++ sub_from (match_here (Chr e :: p)) 0 rest.
Proof.
  induction t as [|c t IH]; intros H; [reflexivity|].
  inversion H as [|? ? Hc Ht]; subst.
  rewrite <- app_comm_cons.
  rewrite sub_from_miss by (apply match_here_first; exact Hc).
  rewrite IH by exact Ht. reflexivity.
Qed.

(** A greedy run over [ds], all in the class, stopped by a character [x]
    outside the class: the rest of the pattern decides at [x]. *)
Lemma greedy_run (P : ascii -> bool) (k : text -> option nat)
      (x : ascii) (rest : text) (n : nat) :
  P x = false ->
  k (x :: rest) = Some n ->
  forall ds : text, forallb P ds = true ->
    greedy P k (ds ++ x :: rest) = Some (length ds + n).
Proof.
  intros Hx Hk. induction ds as [|d ds IH]; intros H; simpl.
  - rewrite Hx. exact Hk.
  - simpl in H. apply andb_prop in H as [Hd Hds].
    rewrite Hd, (IH Hds). reflexivity.
Qed.

(** Removing every occurrence of one character. *)
Lemma str_replace_char (x : ascii) :
  forall s : text,
    str_replace [x] s = filter (fun c => negb (Ascii.eqb x c)) s.
Proof.
  unfold str_replace, re_sub.
  induction s as [|c t IH]; [reflexivity|].
  change (map Chr [x]) with [Chr x] in *.
  cbn [sub_from match_here one filter].
  destruct (Ascii.eqb x c); cbn [option_map negb];
    [exact IH | f_equal; exact IH].
Qed.

End RegexFacts.


(* ================================================================== *)
(** ** The filter on chunks of intact sequences *)
(* ================================================================== *)

Module FilterFacts.
Import Regex Filter RegexFacts Chunk Samples.

Lemma digit_or_semi_not_h_or_l (d : ascii) :
  digit_or_semi d = true -> h_or_l d = false.
Proof.
  destruct d as [[] [] [] [] [] [] [] []]; vm_compute; congruence.
Qed.

Lemma match_DA (ps rest : text) :
  wf_ctrl (DeviceAttributes ps) = true ->
  match_here DA (ESC :: ctrl_body (DeviceAttributes ps) ++ rest)
  = Some (S (length (ctrl_body (DeviceAttributes ps)))).
Proof.
  simpl. intros H. apply andb_prop in H as [Hne Hds].
  destruct ps as [|d ps]; [discriminate|].
  simpl in Hds. apply andb_prop in Hds as [Hd Hds].
  unfold DA. cbn. rewrite Hd. cbn.
  rewrite <- app_assoc. cbn.
  rewrite (@greedy_run digit_or_semi _ "c"%char rest 1);
    cbn; try reflexivity; try assumption.
  rewrite length_app. reflexivity.
Qed.

Lemma match_CPR (r c rest : text) :
  wf_ctrl (CursorPosition r c) = true ->
  match_here CPR (ESC :: ctrl_body (CursorPosition r c) ++ rest)
  = Some (S (length (ctrl_body (CursorPosition r c)))).
Proof.
  simpl. intros H. apply andb_prop in H as [Hr Hc].
  apply andb_prop in Hr as [Hr0 Hr]. apply andb_prop in Hc as [Hc0 Hc].
  destruct r as [|d r]; [discriminate|]. destruct c as [|e c]; [discriminate|].
  simpl in Hr, Hc.
  apply andb_prop in Hr as [Hd Hr]. apply andb_prop in Hc as [He Hc].
  unfold CPR. cbn. rewrite Hd. cbn.
  repeat (rewrite <- app_assoc; cbn).
  rewrite (@greedy_run is_digit _ ";"%char _ (S (S (length c + 1)))).
  - cbn. repeat (rewrite length_app; cbn). reflexivity.
  - reflexivity.
  - cbn. rewrite He. cbn.
    rewrite (@greedy_run is_digit _ "R"%char rest 1);
      cbn; try reflexivity; assumption.
  - assumption.
Qed.

Lemma match_OSC_BEL (body rest : text) :
  wf_ctrl (OscBel body) = true ->
  match_here OSC_BEL (ESC :: ctrl_body (OscBel body) ++ rest)
  = Some (S (length (ctrl_body (OscBel body)))).
Proof.
  simpl. intros H. apply andb_prop in H as [Hb _].
  unfold OSC_BEL. cbn. rewrite <- app_assoc. cbn.
  rewrite (@greedy_run (other_than BEL) _ BEL rest 1);
    cbn; try reflexivity; try assumption.
  rewrite length_app. reflexivity.
Qed.


(** A character of one class is not a character outside it. *)
Lemma class_sep (P : ascii -> bool) (d c : ascii) :
  P d = true -> P c = false -> Ascii.eqb c d = false.
Proof.
  intros Hd Hc. destruct (Ascii.eqb c d) eqn:E; [|reflexivity].
  apply Ascii.eqb_eq in E. subst. congruence.
Qed.

(** A literal followed by a class does not match a run of characters of
    another class that ends in a character foreign to both. *)
Lemma literal_then_class_fails (P C : ascii -> bool) (x : ascii) (rest : text) :
  (forall d, C d = true -> P d = false) ->
  P x = false ->
  forall l : text, forallb (other_than x) l = true ->
  forall ds : text, forallb C ds = true ->
    match_here (map Chr l ++ [Cls P]) (ds ++ x :: rest) = None.
Proof.
  intros HQP Hx. induction l as [|a l IH]; intros Hl ds Hds.
  - destruct ds as [|d ds]; cbn.
    + rewrite Hx. reflexivity.
    + cbn in Hds. apply andb_prop in Hds as [Hd _].
      rewrite (HQP _ Hd). reflexivity.
  - cbn in Hl. apply andb_prop in Hl as [Ha Hl].
    destruct ds as [|d ds]; cbn [map app match_here one].
    + unfold other_than in Ha. apply negb_true_iff in Ha.
      rewrite Ha. reflexivity.
    + cbn in Hds. apply andb_prop in Hds as [_ Hds].
      destruct (Ascii.eqb a d); [|reflexivity].
      rewrite (IH Hl ds Hds). reflexivity.
Qed.

Lemma mode_misses_DA (m : mode_id) (ps rest : text) :
  forallb digit_or_semi ps = true ->
  match_here (MODE (mode_digits m))
             (ESC :: ctrl_body (DeviceAttributes ps) ++ rest) = None.
Proof.
  intros H. unfold MODE. cbn [ctrl_body].
  repeat (rewrite <- app_assoc; cbn [lit list_ascii_of_string app]).
  cbn [match_here one]. 
  change (Ascii.eqb ESC ESC) with true. change (Ascii.eqb "[" "[") with true.
  change (Ascii.eqb "?" "?") with true. cbn [option_map].
  rewrite (@literal_then_class_fails h_or_l digit_or_semi "c"%char rest
             digit_or_semi_not_h_or_l eq_refl (lit (mode_digits m))).
  - reflexivity.
  - destruct m; reflexivity.
  - exact H.
Qed.

Ltac split_andb :=
  repeat match goal with
         | H : (_ && _) = true |- _ => apply andb_prop in H as [? ?]
         end.

Ltac open_match :=
  cbn [pattern_of];
  unfold DA, CPR, MODE, CSI_S, CSI_U, DECSC, DECRC, OSC_BEL;
  cbn [pattern_of ctrl_body lit list_ascii_of_string app map match_here one];
  repeat (rewrite Ascii.eqb_refl; cbn [option_map]).

Lemma match_ctrl (k : pass) (q : ctrl) (rest : text) :
  wf_ctrl q = true ->
  match_here (pattern_of k) (ESC :: ctrl_body q ++ rest)
  = if pass_eq_dec k (pass_of q) then Some (S (length (ctrl_body q)))
    else None.
Proof.
  intros Hwf.
  destruct q as [ps | r c | m' set | f' | body].
  - destruct k as [ | | m | f | ].
    + apply match_DA, Hwf.
    + reflexivity.
    + cbn in Hwf. apply andb_prop in Hwf as [_ Hwf].
      change (pattern_of (PMODE m)) with (MODE (mode_digits m)).
      rewrite mode_misses_DA by exact Hwf. reflexivity.
    + destruct f; reflexivity.
    + reflexivity.
  - destruct k as [ | | m | f | ]; try apply match_CPR, Hwf.
    all: cbn in Hwf; apply andb_prop in Hwf as [Hr _];
      apply andb_prop in Hr as [Hne Hr];
      destruct r as [|d r]; [discriminate|];
      cbn in Hr; apply andb_prop in Hr as [Hd _].
    + open_match. rewrite (class_sep is_digit d "?" Hd eq_refl). reflexivity.
    + open_match. rewrite (class_sep is_digit d "?" Hd eq_refl). reflexivity.
    + destruct f; try reflexivity; open_match.
      * rewrite (class_sep is_digit d "s" Hd eq_refl). reflexivity.
      * rewrite (class_sep is_digit d "u" Hd eq_refl). reflexivity.
    + reflexivity.
  - destruct k as [ | | m | f | ]; try reflexivity.
    + destruct m', set; reflexivity.
    + destruct m, m', set; reflexivity.
    + destruct f; reflexivity.
  - destruct k as [ | | m | f | ]; try (destruct f'; reflexivity).
    destruct f, f'; reflexivity.
  - destruct k as [ | | m | f | ]; try reflexivity.
    + destruct f; reflexivity.
    + apply match_OSC_BEL, Hwf.
Qed.


Lemma forallb_Forall_ne (P : ascii -> bool) (e : ascii) :
  P e = false ->
  forall l : text, forallb P l = true -> Forall (fun c => c <> e) l.
Proof.
  intros He. induction l as [|c l IH]; intros H; constructor.
  - cbn in H. apply andb_prop in H as [Hc _]. congruence.
  - cbn in H. apply andb_prop in H as [_ Hl]. exact (IH Hl).
Qed.

Lemma ctrl_body_no_esc (q : ctrl) :
  wf_ctrl q = true -> Forall (fun c => c <> ESC) (ctrl_body q).
Proof.
  intros Hwf.
  destruct q as [ps | r c | m set | f | body]; cbn in Hwf; split_andb.
  - cbn. repeat constructor; try discriminate.
    apply Forall_app. split; [|repeat constructor; discriminate].
    apply (@forallb_Forall_ne digit_or_semi); [reflexivity | assumption].
  - cbn. constructor; [discriminate|].
    apply Forall_app. split.
    + apply (@forallb_Forall_ne is_digit); [reflexivity | assumption].
    + constructor; [discriminate|]. apply Forall_app. split.
      * apply (@forallb_Forall_ne is_digit); [reflexivity | assumption].
      * repeat constructor; discriminate.
  - destruct m, set; repeat constructor; discriminate.
  - destruct f; repeat constructor; discriminate.
  - cbn. constructor; [discriminate|]. apply Forall_app. split.
    + apply (@forallb_Forall_ne (other_than ESC)); [reflexivity | assumption].
    + repeat constructor; discriminate.
Qed.

Lemma ordinary_no_esc (body : text) :
  forallb ordinary body = true -> Forall (fun c => c <> ESC) body.
Proof.
  apply (@forallb_Forall_ne ordinary). reflexivity.
Qed.

Lemma pattern_of_esc (k : pass) : exists p, pattern_of k = Chr ESC :: p.
Proof.
  destruct k as [ | | m | f | ]; try destruct f; eexists; reflexivity.
Qed.

Lemma pattern_of_listed (k : pass) : In (pattern_of k) all_patterns.
Proof.
  unfold all_patterns. apply in_or_app. left. apply in_map.
  destruct k as [ | | m | f | ]; try destruct m; try destruct f;
    cbn; tauto.
Qed.

(** One pass over a chunk of well-formed pieces deletes exactly the
    control sequences of its own kind. *)
Lemma re_sub_pieces (k : pass) :
  forall ps : list piece,
    Forall wf_piece ps ->
    re_sub (pattern_of k) (render ps) = render (filter (keeps k) ps).
Proof.
  pose proof (pattern_of_listed k) as Hin.
  destruct (pattern_of_esc k) as [p Hp].
  unfold re_sub, render. rewrite Hp in *.
  induction 1 as [|x ps Hx Hps IH]; [reflexivity|].
  destruct x as [t | q | body]; cbn [flat_map render_piece filter keeps].
  - rewrite sub_from_plain.
    + rewrite IH. reflexivity.
    + apply (@forallb_Forall_ne (other_than ESC)); [reflexivity | exact Hx].
  - cbn in Hx. rewrite <- app_comm_cons.
    pose proof (match_ctrl k q (flat_map render_piece ps) Hx) as Hm.
    rewrite Hp in Hm.
    destruct (pass_eq_dec k (pass_of q)) as [Heq | Hne].
    + rewrite sub_from_hit by exact Hm. exact IH.
    + rewrite sub_from_miss by exact Hm.
      rewrite sub_from_plain by (apply ctrl_body_no_esc, Hx).
      cbn [flat_map render_piece]. rewrite <- app_comm_cons.
      rewrite IH. reflexivity.
  - destruct Hx as [Hord Hinert]. rewrite <- app_comm_cons.
    rewrite sub_from_miss by (apply Hinert, Hin).
    rewrite sub_from_plain by (apply ordinary_no_esc, Hord).
    cbn [flat_map render_piece]. rewrite <- app_comm_cons.
    rewrite IH. reflexivity.
Qed.

Lemma filter_keeps_wf (f : piece -> bool) (ps : list piece) :
  Forall wf_piece ps -> Forall wf_piece (filter f ps).
Proof.
  rewrite !Forall_forall. intros H x Hx. apply filter_In in Hx as [Hx _].
  auto.
Qed.

Lemma run_passes_pieces (ks : list pass) :
  forall ps : list piece,
    Forall wf_piece ps ->
    run_passes ks (render ps)
    = render (fold_left (fun ps k => filter (keeps k) ps) ks ps).
Proof.
  unfold run_passes.
  induction ks as [|k ks IH]; intros ps Hwf; [reflexivity|].
  cbn [fold_left]. rewrite re_sub_pieces by exact Hwf.
  apply IH, filter_keeps_wf, Hwf.
Qed.

Lemma all_passes_drop_controls (ps : list piece) :
  fold_left (fun ps k => filter (keeps k) ps) passes ps
  = without_controls ps.
Proof.
  cbn [passes fold_left]. unfold without_controls.
  induction ps as [|x ps IH]; [reflexivity|].
  destruct x as [t | q | body].
  - cbn [filter keeps is_control negb]. f_equal. exact IH.
  - destruct q as [ps' | r c | m set | f | body];
      try destruct m; try destruct f; exact IH.
  - cbn [filter keeps is_control negb]. f_equal. exact IH.
Qed.

(** A pattern that starts with ESC matches nowhere in a chunk made of
    ESC-free text and inert sequences. *)
Lemma search_plain_prefix (e : ascii) (p : pattern) (rest : text) :
  forall t : text, Forall (fun c => c <> e) t ->
                   search (Chr e :: p) (t ++ rest) = search (Chr e :: p) rest.
Proof.
  induction t as [|c t IH]; intros H; [reflexivity|].
  inversion H as [|? ? Hc Ht]; subst.
  rewrite <- app_comm_cons. cbn [search].
  rewrite match_here_first by exact Hc. cbn [is_some orb]. exact (IH Ht).
Qed.

Lemma search_without_controls (p : pattern) :
  In (Chr ESC :: p) all_patterns ->
  forall ps : list piece,
    Forall wf_piece ps ->
    search (Chr ESC :: p) (render (without_controls ps)) = false.
Proof.
  intros Hin. unfold render, without_controls.
  induction 1 as [|x ps Hx Hps IH]; [reflexivity|].
  destruct x as [t | q | body]; cbn [filter is_control negb flat_map render_piece].
  - rewrite search_plain_prefix; [exact IH|].
    apply (@forallb_Forall_ne (other_than ESC)); [reflexivity | exact Hx].
  - exact IH.
  - destruct Hx as [Hord Hinert]. rewrite <- app_comm_cons.
    cbn [search]. rewrite (Hinert _ Hin). cbn [is_some orb].
    rewrite search_plain_prefix; [exact IH | apply ordinary_no_esc, Hord].
Qed.

(** The last three replacements touch the plain text only. *)
Lemma strip_controls_app (a b : text) :
  strip_controls (a ++ b) = strip_controls a ++ strip_controls b.
Proof. unfold strip_controls. rewrite !filter_app. reflexivity. Qed.

Lemma strip_controls_ordinary (body : text) :
  forallb ordinary body = true -> strip_controls body = body.
Proof.
  induction body as [|c body IH]; intros H; [reflexivity|].
  cbn in H. apply andb_prop in H as [Hc Hb].
  change (c :: body) with ([c] ++ body).
  rewrite strip_controls_app, (IH Hb). f_equal.
  unfold ordinary, other_than in Hc.
  apply andb_prop in Hc as [Hc H3]. apply andb_prop in Hc as [Hc H2].
  apply andb_prop in Hc as [_ H1].
  apply negb_true_iff in H1, H2, H3.
  rewrite Ascii.eqb_sym in H1, H2, H3.
  unfold strip_controls. cbn [filter]. rewrite H1. cbn [negb filter].
  rewrite H2. cbn [negb filter]. rewrite H3. reflexivity.
Qed.

Lemma forallb_filter (P f : ascii -> bool) (t : text) :
  forallb P t = true -> forallb P (filter f t) = true.
Proof.
  rewrite !forallb_forall. intros H c Hc.
  apply filter_In in Hc as [Hc _]. auto.
Qed.

Lemma wf_strip_piece (x : piece) : wf_piece x -> wf_piece (strip_piece x).
Proof.
  destruct x as [t | q | body]; cbn; [|tauto..].
  intros H. unfold strip_controls. repeat apply forallb_filter. exact H.
Qed.

Lemma strip_controls_kept (ps : list piece) :
  Forall wf_piece ps ->
  strip_controls (render (without_controls ps))
  = render (without_controls (map strip_piece ps)).
Proof.
  unfold render, without_controls.
  induction 1 as [|x ps Hx Hps IH]; [reflexivity|].
  destruct x as [t | q | body];
    cbn [map strip_piece filter is_control negb flat_map render_piece].
  - rewrite strip_controls_app, IH. reflexivity.
  - exact IH.
  - destruct Hx as [Hord _].
    change (ESC :: body) with ([ESC] ++ body).
    rewrite <- !app_assoc, !strip_controls_app, IH.
    rewrite (strip_controls_ordinary body Hord). reflexivity.
Qed.

Lemma filter_output_passes (data : text) :
  _filter_output data
  = str_replace [FS] (str_replace [CAN] (str_replace [ETB]
      (re_sub OSC_ST (run_passes passes (str_replace DA_TAIL data))))).
Proof.
  destruct data; reflexivity.
Qed.

Lemma recognized_listed (p : pattern) :
  In p recognized -> exists p', p = Chr ESC :: p' /\ In p all_patterns.
Proof.
  intros H. assert (Hall : In p all_patterns).
  { unfold all_patterns. apply in_or_app. right. right. exact H. }
  cbn in H.
  repeat (destruct H as [H | H];
          [subst p; eexists; split; [reflexivity | exact Hall]|]).
  contradiction.
Qed.

Lemma OSC_ST_listed : In OSC_ST all_patterns.
Proof. unfold all_patterns. apply in_or_app. right. left. reflexivity. Qed.

(** *** Colour and attribute sequences are inert *)

Lemma match_chr (c : ascii) (p : pattern) (x : ascii) (s : text) :
  match_here (Chr c :: p) (x :: s)
  = if Ascii.eqb c x then option_map S (match_here p s) else None.
Proof. reflexivity. Qed.

Lemma match_plus (P : ascii -> bool) (p : pattern) (x : ascii) (s : text) :
  match_here (Plus P :: p) (x :: s)
  = if P x then option_map S (greedy P (match_here p) s) else None.
Proof. reflexivity. Qed.

Lemma greedy_cons (P : ascii -> bool) (k : text -> option nat)
      (x : ascii) (s : text) :
  greedy P k (x :: s)
  = if P x then match greedy P k s with
                | Some n => Some (S n)
                | None => k (x :: s)
                end
    else k (x :: s).
Proof. reflexivity. Qed.

Section Sgr.
Variable rest : text.

(** The cursor-position pattern, from each of its repetitions on, fails
    on parameters that end in [m]. *)
Lemma final_fails (ps : text) :
  forallb digit_or_semi ps = true ->
  greedy is_digit (match_here [Chr "R"]) (ps ++ "m"%char :: rest) = None.
Proof.
  induction ps as [|d ps IH]; intros H; [reflexivity|].
  cbn in H. apply andb_prop in H as [Hd Hps].
  rewrite <- app_comm_cons, greedy_cons, (IH Hps), match_chr.
  rewrite (class_sep digit_or_semi d "R" Hd eq_refl).
  destruct (is_digit d); reflexivity.
Qed.

Lemma column_fails (ps : text) :
  forallb digit_or_semi ps = true ->
  match_here [Plus is_digit; Chr "R"] (ps ++ "m"%char :: rest) = None.
Proof.
  destruct ps as [|d ps]; intros H; [reflexivity|].
  cbn in H. apply andb_prop in H as [_ Hps].
  rewrite <- app_comm_cons, match_plus, (final_fails ps Hps).
  destruct (is_digit d); reflexivity.
Qed.

Lemma row_fails (ps : text) :
  forallb digit_or_semi ps = true ->
  greedy is_digit (match_here [Chr ";"; Plus is_digit; Chr "R"])
         (ps ++ "m"%char :: rest) = None.
Proof.
  induction ps as [|d ps IH]; intros H; [reflexivity|].
  cbn in H. apply andb_prop in H as [Hd Hps].
  rewrite <- app_comm_cons, greedy_cons, (IH Hps), match_chr.
  rewrite (column_fails ps Hps).
  destruct (is_digit d), (Ascii.eqb ";" d); reflexivity.
Qed.

Lemma CPR_misses_sgr (ps : text) :
  forallb digit_or_semi ps = true ->
  match_here CPR (ESC :: ("["%char :: ps ++ ["m"%char]) ++ rest) = None.
Proof.
  intros H. rewrite <- app_comm_cons, <- app_assoc.
  change (["m"%char] ++ rest) with ("m"%char :: rest).
  unfold CPR. rewrite !match_chr, !Ascii.eqb_refl.
  destruct ps as [|d ps]; [reflexivity|].
  cbn in H. apply andb_prop in H as [_ Hps].
  rewrite <- app_comm_cons, match_plus, (row_fails ps Hps).
  destruct (is_digit d); reflexivity.
Qed.

End Sgr.

(** ESC [ parameters m, the parameters being digits and semicolons. *)
Lemma sgr_inert (ps : text) :
  forallb digit_or_semi ps = true -> inert ("["%char :: ps ++ ["m"%char]).
Proof.
  intros H p Hin rest.
  assert (Hhead : forall (x : ascii) (k : text -> option nat),
             digit_or_semi x = false -> Ascii.eqb x "m" = false ->
             one (Ascii.eqb x) k ((ps ++ ["m"%char]) ++ rest) = None).
  { intros x k Hx Hm. destruct ps as [|d ps]; cbn [app one].
    - rewrite Hm. reflexivity.
    - cbn in H. apply andb_prop in H as [Hd _].
      rewrite (class_sep digit_or_semi d x Hd Hx). reflexivity. }
  cbn in Hin.
  repeat (destruct Hin as [<- | Hin];
          [first [ reflexivity
                 | apply CPR_misses_sgr, H
                 | unfold DA, MODE, CSI_S, CSI_U;
                   cbn [match_here one app map lit list_ascii_of_string];
                   rewrite !Ascii.eqb_refl; cbn [option_map];
                   rewrite Hhead; reflexivity ] |]).
  contradiction.
Qed.

(** The scenario of the specification: a bracketed-paste toggle directly
    followed by visible text. *)
Example filter_bracketed_paste_hello :
  _filter_output (ESC :: lit "[?2004hhello") = lit "hello".
Proof. reflexivity. Qed.

(** An OSC sequence closed by ESC and one backslash comes back whole; the
    pattern of the second OSC pass asks for two backslashes. *)
Example filter_keeps_osc_with_string_terminator :
  let chunk := ESC :: lit "]0;title" ++ ESC :: lit "\" in
  _filter_output chunk = chunk
  /\ search OSC_ST_spec (_filter_output chunk) = true
  /\ _filter_output (chunk ++ lit "\") = [].
Proof. repeat split; reflexivity. Qed.

(** The Device-Attributes response quoted in the source, arriving whole:
    the literal removal of its tail runs first and leaves the head. *)
Example filter_device_attributes_head_survives :
  _filter_output (ESC :: lit "[?61;6;7;21;22;23;24;28;32;42c")
  = ESC :: lit "[?61;6;7;21;22;".
Proof. reflexivity. Qed.

(** C1, as stated, fails.  In [nested_chunk] a cursor-hide toggle sits
    inside the parameters of a Device-Attributes response: the toggle is
    deleted by its own pass, after the Device-Attributes pass has run, and
    the text returned contains the response it leaves behind, one of the
    recognized patterns. *)
Lemma filter_output_can_leave_recognized_sequence :
  In DA recognized
  /\ _filter_output nested_chunk = ESC :: lit "[?1c"
  /\ search DA (_filter_output nested_chunk) = true.
Proof. repeat split; [left|..]; reflexivity. Qed.

(** The three characters are deleted last, so one of them standing inside
    a sequence that no pattern matches can leave a recognized sequence
    behind as well: here a cursor-hide toggle. *)
Example filter_stray_control_splits_sequence :
  inert [ETB]
  /\ In (MODE "25") recognized
  /\ _filter_output (ESC :: ETB :: lit "[?25h") = ESC :: lit "[?25h"
  /\ search (MODE "25") (_filter_output (ESC :: ETB :: lit "[?25h")) = true.
Proof.
  split; [|split; [|split]]; try reflexivity.
  - intros p Hp rest. unfold all_patterns in Hp. cbn in Hp.
    repeat (destruct Hp as [<- | Hp]; [reflexivity|]). destruct Hp.
  - cbn. tauto.
Qed.

(** C1, amended.  Take a chunk in which every ESC starts either an intact
    control sequence (a Device-Attributes response, a cursor-position
    report, a listed mode toggle, a cursor save or restore, an OSC
    sequence closed by BEL and without a further ESC) or a sequence that
    holds none of the characters ETB, CAN and FS and that no pattern can
    match whatever follows it, and in which the literal Device-Attributes
    tail does not occur.  The filter returns the chunk without its intact
    control sequences and without the characters ETB, CAN and FS, and the
    returned text contains no recognized pattern. *)
Theorem filter_output_intact_chunk (ps : list piece) :
  Forall wf_piece ps ->
  search (map Chr DA_TAIL) (render ps) = false ->
  _filter_output (render ps)
  = strip_controls (render (without_controls ps))
  /\ forall p, In p recognized ->
               search p (_filter_output (render ps)) = false.
Proof.
  intros Hwf Htail.
  assert (E : _filter_output (render ps)
              = strip_controls (render (without_controls ps))).
  { rewrite filter_output_passes.
    unfold str_replace at 4. rewrite (re_sub_no_match _ _ Htail).
    rewrite run_passes_pieces by exact Hwf.
    rewrite all_passes_drop_controls.
    rewrite re_sub_no_match
      by (apply (search_without_controls _ OSC_ST_listed), Hwf).
    rewrite !str_replace_char. reflexivity. }
  split; [exact E|].
  intros p Hp. rewrite E, strip_controls_kept by exact Hwf.
  destruct (recognized_listed p Hp) as [p' [-> Hall]].
  apply (search_without_controls _ Hall).
  apply Forall_forall. intros x Hx. apply in_map_iff in Hx as [y [<- Hy]].
  apply wf_strip_piece. rewrite Forall_forall in Hwf. auto.
Qed.

Lemma sample_chunk_wf : Forall wf_piece sample_chunk.
Proof.
  repeat constructor. exact (sgr_inert (lit "0") eq_refl).
Qed.

Lemma filter_output_intact_chunk_witness :
  _filter_output (render sample_chunk)
  = lit "abhello" ++ ESC :: lit "[0m$ "
  /\ forall p, In p recognized ->
               search p (_filter_output (render sample_chunk)) = false.
Proof.
  destruct (filter_output_intact_chunk sample_chunk sample_chunk_wf)
    as [E H]; [reflexivity | ].
  split; [rewrite E; reflexivity | exact H].
Defined.

End FilterFacts.

(* ================================================================== *)
(** ** The session: buffer, drain, guards and reader thread *)
(* ================================================================== *)

Module TerminalFacts.
Import Regex Filter Terminal Samples.

(** *** The bounded deque *)

Section Deque.
Variable A : Type.
Variable maxlen : nat.

Lemma deque_append_length (d : list A) (x : A) :
  length d <= maxlen ->
  length (deque_append maxlen d x) = Nat.min (S (length d)) maxlen.
Proof.
  intros H. unfold deque_append.
  rewrite length_app. cbn [length].
  destruct (Nat.ltb_spec maxlen (length d + 1)).
  - destruct d as [|y d]; cbn [app tl length] in *; [lia|].
    rewrite length_app. cbn [length]. lia.
  - rewrite length_app. cbn [length]. lia.
Qed.

Lemma deque_append_skipn (d : list A) (x : A) :
  length d <= maxlen ->
  deque_append maxlen d x = skipn (S (length d) - maxlen) (d ++ [x]).
Proof.
  intros H. unfold deque_append.
  rewrite length_app. cbn [length].
  destruct (Nat.ltb_spec maxlen (length d + 1)).
  - replace (S (length d) - maxlen) with 1 by lia.
    destruct (d ++ [x]); reflexivity.
  - replace (S (length d) - maxlen) with 0 by lia. reflexivity.
Qed.

(** Appending a series of elements keeps the most recent [maxlen] of the
    old content followed by the new elements. *)
Lemma deque_appends (xs : list A) :
  forall d : list A,
    length d <= maxlen ->
    fold_left (deque_append maxlen) xs d
    = skipn (length d + length xs - maxlen) (d ++ xs).
Proof.
  induction xs as [|x xs IH]; intros d H; cbn [fold_left length].
  - replace (length d + 0 - maxlen) with 0 by lia.
    rewrite app_nil_r. reflexivity.
  - rewrite IH by (rewrite deque_append_length by exact H; lia).
    rewrite deque_append_length, deque_append_skipn by exact H.
    destruct (Nat.le_gt_cases (S (length d)) maxlen) as [Hle | Hgt].
    + replace (S (length d) - maxlen) with 0 by lia. cbn [skipn].
      rewrite <- app_assoc. cbn [app]. f_equal. lia.
    + assert (length d = maxlen) as Hd by lia.
      replace (S (length d) - maxlen) with 1 by lia.
      destruct d as [|y d]; cbn [length] in *.
      * subst maxlen. cbn. destruct xs; reflexivity.
      * cbn [app skipn]. rewrite <- app_assoc. cbn [app].
        replace (S (length d) + S (length xs) - maxlen)
          with (S (Nat.min (S (S (length d))) maxlen + length xs - maxlen))
          by lia.
        reflexivity.
Qed.

End Deque.

(** *** The reader thread *)

Lemma reader_poll_buffer (ev : poll) (s : TerminalAPI) :
  _output_buffer (reader_poll ev s)
  = fold_left (deque_append MAXLEN) (poll_appends ev s) (_output_buffer s).
Proof.
  unfold reader_poll, poll_appends.
  destruct (_output_thread s) as [[|]|]; try reflexivity.
  destruct (_running s); [|reflexivity]. cbn [negb].
  destruct (process s); [|reflexivity].
  destruct (read ev) as [[|c data]|]; try reflexivity.
  destruct (_filter_output (c :: data)); [reflexivity|].
  cbn [fold_left].
  match goal with |- context [if ?b then _ else _] => destruct b end;
    reflexivity.
Qed.

Lemma reader_run_buffer (polls : list poll) :
  forall s : TerminalAPI,
    _output_buffer (reader_run polls s)
    = fold_left (deque_append MAXLEN) (reader_appends polls s)
                (_output_buffer s).
Proof.
  unfold reader_run.
  induction polls as [|ev polls IH]; intros s; [reflexivity|].
  cbn [fold_left reader_appends]. rewrite IH, fold_left_app.
  rewrite reader_poll_buffer. reflexivity.
Qed.

Lemma MAXLEN_pos : 0 < MAXLEN.
Proof. apply Nat.ltb_lt. vm_compute. reflexivity. Qed.

(** C5.  From an empty buffer, after any series of appends the buffer
    holds the most recent [min n 10000] chunks in arrival order, and each
    append beyond the capacity drops the oldest chunk; the reader thread
    changes the buffer by such appends only. *)
Theorem output_buffer_keeps_most_recent (chunks : list text) :
  let buffer := fold_left (deque_append MAXLEN) chunks [] in
  buffer = skipn (length chunks - MAXLEN) chunks
  /\ length buffer = Nat.min (length chunks) MAXLEN
  /\ (forall x : text,
         fold_left (deque_append MAXLEN) (chunks ++ [x]) []
         = if MAXLEN <=? length chunks then tl buffer ++ [x]
           else buffer ++ [x])
  /\ forall (s : TerminalAPI) (polls : list poll),
       _output_buffer (reader_run polls s)
       = fold_left (deque_append MAXLEN) (reader_appends polls s)
                   (_output_buffer s).
Proof.
  cbv zeta.
  assert (E : fold_left (deque_append MAXLEN) chunks []
              = skipn (length chunks - MAXLEN) chunks).
  { rewrite deque_appends by (cbn [length]; lia). reflexivity. }
  assert (L : length (fold_left (deque_append MAXLEN) chunks [])
              = Nat.min (length chunks) MAXLEN).
  { rewrite E, length_skipn. lia. }
  repeat split; [exact E | exact L | | intros; apply reader_run_buffer].
  intros x. rewrite fold_left_app. cbn [fold_left].
  set (buffer := fold_left (deque_append MAXLEN) chunks []) in *.
  unfold deque_append. rewrite length_app, L. cbn [length].
  destruct (Nat.leb_spec MAXLEN (length chunks)) as [Hle | Hgt].
  - replace (MAXLEN <? Nat.min (length chunks) MAXLEN + 1) with true
      by (symmetry; apply Nat.ltb_lt; lia).
    destruct buffer as [|y b]; [|reflexivity].
    cbn [length] in L. pose proof MAXLEN_pos. lia.
  - replace (MAXLEN <? Nat.min (length chunks) MAXLEN + 1) with false
      by (symmetry; apply Nat.ltb_ge; lia).
    reflexivity.
Qed.

Lemma poll_appends_length (ev : poll) (s : TerminalAPI) :
  length (poll_appends ev s) <= 1.
Proof.
  unfold poll_appends.
  destruct (_output_thread s) as [[|]|], (_running s), (process s),
    (read ev) as [[|c data]|]; try (cbn [length]; lia).
  destruct (_filter_output (c :: data)); cbn [length]; lia.
Qed.


Lemma poll_appends_nonempty (ev : poll) (s : TerminalAPI) :
  Forall (fun chunk => chunk <> []) (poll_appends ev s).
Proof.
  unfold poll_appends.
  destruct (_output_thread s) as [[|]|], (_running s), (process s),
    (read ev) as [[|c data]|]; try constructor.
  destruct (_filter_output (c :: data)); repeat constructor. discriminate.
Qed.

Lemma deque_append_Forall {A} (P : A -> Prop) maxlen (d : list A) (x : A) :
  Forall P d -> P x -> Forall P (deque_append maxlen d x).
Proof.
  intros Hd Hx. unfold deque_append.
  assert (H : Forall P (d ++ [x])) by (apply Forall_app; auto).
  destruct (maxlen <? length (d ++ [x])); [|exact H].
  destruct (d ++ [x]); [constructor|]. inversion H; assumption.
Qed.

Lemma fold_deque_append_Forall {A} (P : A -> Prop) maxlen (xs : list A) :
  forall d, Forall P d -> Forall P xs ->
            Forall P (fold_left (deque_append maxlen) xs d).
Proof.
  induction xs as [|x xs IH]; intros d Hd Hxs; [exact Hd|].
  inversion Hxs; subst. cbn [fold_left].
  apply IH; [apply deque_append_Forall|]; assumption.
Qed.

Lemma reader_poll_clean (ev : poll) (s : TerminalAPI) :
  clean_buffer s -> clean_buffer (reader_poll ev s).
Proof.
  unfold clean_buffer. intros H. rewrite reader_poll_buffer.
  apply fold_deque_append_Forall; [exact H | apply poll_appends_nonempty].
Qed.

Lemma reader_run_clean (polls : list poll) :
  forall s, clean_buffer s -> clean_buffer (reader_run polls s).
Proof.
  unfold reader_run.
  induction polls as [|ev polls IH]; intros s H; [exact H|].
  cbn [fold_left]. apply IH, reader_poll_clean, H.
Qed.

Lemma reader_poll_frame (ev : poll) (s : TerminalAPI) :
  process (reader_poll ev s) = process s
  /\ _running (reader_poll ev s) = _running s.
Proof.
  unfold reader_poll.
  destruct (_output_thread s) as [[|]|]; try (split; reflexivity).
  destruct (_running s) eqn:R; cbn [negb]; [|split; [reflexivity | exact R]].
  destruct (process s) eqn:Pr, (read ev) as [[|c data]|];
    try (split; [exact Pr | exact R]).
  destruct (_filter_output (c :: data)); [split; [exact Pr | exact R]|].
  match goal with |- context [if ?b then _ else _] => destruct b end;
    split; cbn; assumption.
Qed.

Lemma reader_run_frame (polls : list poll) :
  forall s, process (reader_run polls s) = process s
            /\ _running (reader_run polls s) = _running s.
Proof.
  unfold reader_run.
  induction polls as [|ev polls IH]; intros s; [split; reflexivity|].
  cbn [fold_left]. destruct (IH (reader_poll ev s)) as [-> ->].
  apply reader_poll_frame.
Qed.

Ltac unfold_methods :=
  unfold start, write, send_command, read_output, process_write, sleep,
    bind, get, modify, ret, raise.

Lemma reader_run_invariant (polls : list poll) (s : TerminalAPI) :
  invariant s -> invariant (reader_run polls s).
Proof.
  intros [Hc Hp]. split; [apply reader_run_clean, Hc|].
  destruct (reader_run_frame polls s) as [-> ->]. exact Hp.
Qed.

(** [time.sleep] either lets the reader thread run, or raises and leaves
    the session as it was. *)
Lemma sleep_cases (t : Q) (polls : list poll) (s : TerminalAPI) :
  sleep t polls s = (Returns tt, reader_run polls s)
  \/ exists e, sleep t polls s = (Raises e, s).
Proof.
  unfold sleep, modify, raise.
  destruct (Qle_bool 0 t), (Qle_bool t SLEEP_MAX), (Qle_bool SLEEP_MIN t);
    eauto.
Qed.

Lemma sleep_runs (t : Q) (polls : list poll) (s : TerminalAPI) :
  Qle_bool 0 t = true -> Qle_bool t SLEEP_MAX = true ->
  sleep t polls s = (Returns tt, reader_run polls s).
Proof. unfold sleep, modify. intros -> ->. reflexivity. Qed.

Lemma sleep_invariant (t : Q) (polls : list poll) (s : TerminalAPI) :
  invariant s -> invariant (snd (sleep t polls s)).
Proof.
  intros H.
  destruct (sleep_cases t polls s) as [-> | [e ->]];
    [apply reader_run_invariant|]; exact H.
Qed.

Lemma process_write_invariant (t : text) (ok : bool) (s : TerminalAPI) :
  invariant s -> invariant (snd (process_write t ok s)).
Proof.
  intros H. unfold_methods.
  destruct (process s) eqn:E; [|exact H].
  destruct ok; [|exact H].
  destruct H as [Hc _]. split; [exact Hc | cbn; discriminate].
Qed.

Lemma cleared_invariant (s : TerminalAPI) :
  invariant s -> invariant (set_output_buffer [] s).
Proof.
  intros [_ Hp]. split; [constructor | exact Hp].
Qed.

Lemma read_output_invariant (t : Q) (polls : list poll) (s : TerminalAPI) :
  invariant s -> invariant (snd (read_output t polls s)).
Proof.
  intros H. unfold read_output, bind, get, modify, ret.
  destruct (negb (Qle_bool t 0)).
  - pose proof (sleep_invariant t polls s H) as H'.
    destruct (sleep t polls s) as [[[]|e] s']; cbn [snd] in *.
    + apply cleared_invariant, H'.
    + exact H'.
  - apply cleared_invariant, H.
Qed.

Lemma start_invariant spawn boot (s : TerminalAPI) :
  invariant s -> invariant (snd (start spawn boot s)).
Proof.
  intros H. unfold start, bind, get, modify, raise.
  destruct (_running s) eqn:R; [exact H|].
  destruct H as [Hc _].
  destruct spawn; cbn [snd].
  - split; [exact Hc | cbn; congruence].
  - split; [exact Hc | discriminate].
  - apply sleep_invariant. split; [exact Hc | discriminate].
Qed.

Lemma write_invariant t ok (s : TerminalAPI) :
  invariant s -> invariant (snd (write t ok s)).
Proof.
  intros H. unfold write, bind, get, raise.
  destruct (_running s); cbn [negb]; [|exact H].
  apply process_write_invariant, H.
Qed.

Lemma send_command_invariant cmd w ok polls (s : TerminalAPI) :
  invariant s -> invariant (snd (send_command cmd w ok polls s)).
Proof.
  intros H. unfold send_command, bind, get, modify, raise.
  destruct (_running s) eqn:R; cbn [negb]; [|exact H].
  apply cleared_invariant in H.
  pose proof (process_write_invariant (cmd ++ [CR]) ok _ H) as H2.
  destruct (process_write (cmd ++ [CR]) ok (set_output_buffer [] s))
    as [[[]|e] s2]; cbn [snd] in *; [|exact H2].
  pose proof (sleep_invariant w polls s2 H2) as H3.
  destruct (sleep w polls s2) as [[[]|e] s3]; cbn [snd] in *; [|exact H3].
  apply (read_output_invariant 0 [] s3 H3).
Qed.

Lemma close_invariant j (s : TerminalAPI) :
  invariant s -> invariant (close j s).
Proof.
  intros H. unfold close.
  destruct (_running s) eqn:R; [|exact H].
  destruct H as [Hc _]. unfold invariant, clean_buffer in *.
  destruct (_output_thread (set_running false s)) as [[|]|];
    try destruct j; (split; [exact Hc | discriminate]).
Qed.

Lemma reachable_invariant (s : TerminalAPI) : reachable s -> invariant s.
Proof.
  induction 1.
  - split; [constructor | discriminate].
  - apply start_invariant; assumption.
  - apply write_invariant; assumption.
  - apply send_command_invariant; assumption.
  - apply read_output_invariant; assumption.
  - split; [apply reader_poll_clean, IHreachable|].
    destruct (reader_poll_frame ev s) as [-> ->]. apply IHreachable.
  - apply close_invariant; assumption.
Qed.

(** *** Drain *)

(** C4.  A drain returns the chunks of the buffer concatenated in arrival
    order and leaves the buffer empty; on an empty buffer it returns the
    empty text; two drains in a row return the content and then the empty
    text. *)
Theorem drain_returns_content_then_empty
        (s : TerminalAPI) (polls polls' : list poll) :
  read_output 0 polls s
  = (Returns (concat (_output_buffer s)), set_output_buffer [] s)
  /\ _output_buffer (snd (read_output 0 polls s)) = []
  /\ fst (read_output 0 polls (set_output_buffer [] s)) = Returns []
  /\ (first <- read_output 0 polls ;;
      second <- read_output 0 polls' ;;
      ret (first, second)) s
     = (Returns (concat (_output_buffer s), []), set_output_buffer [] s).
Proof.
  repeat split.
Qed.

(** *** Guards of [start], [write] and [send_command] *)



(** *** [send_command] *)




(** What the sample run returns: the echo and the listing, the empty read
    and the cursor toggle having added nothing. *)
Example send_command_sample :
  fst (send_command (lit "ls") (1 # 2) true sample_polls started)
  = Returns (lit "ls" ++ CR :: lit "a.txt  b.txt").
Proof. vm_compute. reflexivity. Qed.

(** *** No empty chunk *)

(** C10.  No chunk of the buffer is empty; a poll whose non-empty data the
    filter reduces to the empty text appends nothing to the buffer and
    writes nothing to the log. *)
Theorem buffer_never_holds_empty_chunk (s : TerminalAPI) :
  reachable s ->
  Forall (fun chunk : text => chunk <> []) (_output_buffer s)
  /\ forall (data : text) (log_ok : bool),
       data <> [] ->
       _filter_output data = [] ->
       _output_buffer (reader_poll (mkPoll (ReadData data) log_ok) s)
       = _output_buffer s
       /\ log_file (reader_poll (mkPoll (ReadData data) log_ok) s)
          = log_file s.
Proof.
  intros Hreach. split; [apply (reachable_invariant s Hreach)|].
  intros data log_ok Hdata Hfilter. unfold reader_poll.
  destruct (_output_thread s) as [[|]|]; try (split; reflexivity).
  destruct (_running s); cbn [negb]; [|split; reflexivity].
  destruct (process s); [|split; reflexivity].
  cbn [read]. destruct data as [|c data]; [contradiction|].
  rewrite Hfilter. split; reflexivity.
Qed.

Lemma buffer_never_holds_empty_chunk_witness :
  Forall (fun chunk : text => chunk <> [])
         (_output_buffer (reader_run sample_polls started))
  /\ forall (data : text) (log_ok : bool),
       data <> [] ->
       _filter_output data = [] ->
       _output_buffer (reader_poll (mkPoll (ReadData data) log_ok)
                                   (reader_run sample_polls started))
       = _output_buffer (reader_run sample_polls started)
       /\ log_file (reader_poll (mkPoll (ReadData data) log_ok)
                                (reader_run sample_polls started))
          = log_file (reader_run sample_polls started).
Proof.
  apply (buffer_never_holds_empty_chunk (reader_run sample_polls started)).
  unfold sample_polls, reader_run. cbn [fold_left].
  repeat apply reach_reader_poll. apply reach_start, reach_init.
Defined.

(** A chunk of stray control characters is such data. *)
Example filter_reduces_controls_to_nothing :
  [ETB; CAN] <> [] /\ _filter_output [ETB; CAN] = []
  /\ _output_buffer (reader_poll (mkPoll (ReadData [ETB; CAN]) true) started)
     = _output_buffer started.
Proof. repeat split. discriminate. Qed.

End TerminalFacts.

(* ================================================================== *)
(** ** The registry: the three maps and resolution *)
(* ================================================================== *)

Module RegistryFacts.
Import Terminal Registry Samples.

Lemma text_eqb_eq (a b : text) : text_eqb a b = true <-> a = b.
Proof.
  revert b. induction a as [|x a IH]; intros [|y b]; cbn;
    try (split; [discriminate | discriminate]); [tauto|].
  rewrite andb_true_iff, Ascii.eqb_eq, IH.
  split; [intros [-> ->]; reflexivity | intros H; inversion H; auto].
Qed.

Lemma text_eqb_refl (a : text) : text_eqb a a = true.
Proof. apply text_eqb_eq. reflexivity. Qed.

Lemma text_eqb_neq (a b : text) : text_eqb a b = false <-> a <> b.
Proof.
  rewrite <- text_eqb_eq. destruct (text_eqb a b); split; congruence.
Qed.

Section Dict.
Variable V : Type.
Implicit Types (d : dict V) (k : text) (v : V).

Lemma dict_mem_keys k d : dict_mem k d = has_key k (keys d).
Proof.
  unfold dict_mem, has_key, keys.
  induction d as [|[k' v'] d IH]; cbn; [reflexivity|].
  destruct (text_eqb k k'); [reflexivity | exact IH].
Qed.

Lemma keys_dict_set k v d : keys (dict_set k v d) = add_key k (keys d).
Proof.
  unfold add_key, has_key, keys.
  induction d as [|[k' v'] d IH]; cbn; [reflexivity|].
  destruct (text_eqb k k') eqn:E; cbn.
  - apply text_eqb_eq in E. subst. reflexivity.
  - rewrite IH.
    destruct (existsb (text_eqb k) (map fst d)); reflexivity.
Qed.

Lemma keys_dict_del k d : keys (dict_del k d) = del_key k (keys d).
Proof.
  unfold keys.
  induction d as [|[k' v'] d IH]; cbn; [reflexivity|].
  destruct (text_eqb k k'); cbn; [reflexivity|].
  rewrite IH. reflexivity.
Qed.

Lemma dict_get_set_same k v d : dict_get k (dict_set k v d) = Some v.
Proof.
  induction d as [|[k' v'] d IH]; cbn.
  - rewrite text_eqb_refl. reflexivity.
  - destruct (text_eqb k k') eqn:E; cbn.
    + rewrite text_eqb_refl. reflexivity.
    + rewrite E. exact IH.
Qed.

Lemma dict_get_set_other k k0 v d :
  k0 <> k -> dict_get k0 (dict_set k v d) = dict_get k0 d.
Proof.
  intros Hne. induction d as [|[k' v'] d IH]; cbn.
  - apply text_eqb_neq in Hne. rewrite Hne. reflexivity.
  - destruct (text_eqb k k') eqn:E; cbn.
    + apply text_eqb_eq in E. subst k'.
      apply text_eqb_neq in Hne. rewrite Hne. reflexivity.
    + rewrite IH. reflexivity.
Qed.

Lemma dict_get_del_other k k0 d :
  k0 <> k -> dict_get k0 (dict_del k d) = dict_get k0 d.
Proof.
  intros Hne. induction d as [|[k' v'] d IH]; cbn; [reflexivity|].
  destruct (text_eqb k k') eqn:E; cbn.
  - apply text_eqb_eq in E. subst k'.
    apply text_eqb_neq in Hne. rewrite Hne. reflexivity.
  - rewrite IH. reflexivity.
Qed.

End Dict.

Lemma has_key_In k ks : has_key k ks = true <-> In k ks.
Proof.
  unfold has_key. rewrite existsb_exists. split.
  - intros [x [Hx E]]. apply text_eqb_eq in E. subst. exact Hx.
  - intros H. exists k. split; [exact H | apply text_eqb_refl].
Qed.

Lemma add_key_NoDup k ks : NoDup ks -> NoDup (add_key k ks).
Proof.
  intros H. unfold add_key. destruct (has_key k ks) eqn:E; [exact H|].
  apply NoDup_app; [exact H | repeat constructor; intros [] | ].
  intros x Hx [<- | []].
  apply has_key_In in Hx. congruence.
Qed.

Lemma del_key_In k x ks : In x (del_key k ks) -> In x ks.
Proof.
  induction ks as [|k' ks IH]; cbn; [tauto|].
  destruct (text_eqb k k'); cbn; tauto.
Qed.

Lemma del_key_NoDup k ks : NoDup ks -> NoDup (del_key k ks).
Proof.
  induction 1 as [|k' ks Hk Hks IH]; cbn; [constructor|].
  destruct (text_eqb k k'); [exact Hks|].
  constructor; [|exact IH]. intros H. apply Hk, (del_key_In k), H.
Qed.

Lemma del_key_gone k ks : NoDup ks -> has_key k (del_key k ks) = false.
Proof.
  induction 1 as [|k' ks Hk Hks IH]; cbn; [reflexivity|].
  destruct (text_eqb k k') eqn:E; cbn.
  - apply text_eqb_eq in E. subst k'.
    destruct (has_key k ks) eqn:F; [|exact F].
    apply has_key_In in F. contradiction.
  - unfold has_key in *. cbn. rewrite E. exact IH.
Qed.


Lemma create_session_cases env nm cols rows cmd (m : SessionManager) :
  (exists e, create_session env nm cols rows cmd m = (Raises e, m))
  \/ (exists t name',
         create_session env nm cols rows cmd m
         = (if print_ok env then Returns (uuid4 env)
            else Raises UnicodeEncodeError,
            mkSessionManager
              (dict_set (uuid4 env) t (_sessions m))
              (dict_set (uuid4 env) [] (_history m))
              (dict_set (uuid4 env) (mkMeta name' (now env)) (_metadata m)))).
Proof.
  unfold create_session.
  destruct (makedirs_ok env); cbn [negb]; [|left; eexists; reflexivity].
  match goal with
  | |- context [match ?run with _ => _ end] => destruct run as [[[]|e] t]
  end.
  - right. eexists. eexists. cbv zeta. destruct (print_ok env); reflexivity.
  - left. eexists. reflexivity.
Qed.

Lemma kill_session_cases identifier joined (m : SessionManager) :
  kill_session identifier joined m = ((false, None), m)
  \/ (exists sid t,
         _resolve_id m identifier = Some sid
         /\ dict_get sid (_sessions m) = Some t
         /\ kill_session identifier joined m
            = ((true, Some (close joined t)),
               mkSessionManager
                 (dict_del sid (_sessions m))
                 (if dict_mem sid (_history m)
                  then dict_del sid (_history m) else _history m)
                 (if dict_mem sid (_metadata m)
                  then dict_del sid (_metadata m) else _metadata m))).
Proof.
  unfold kill_session.
  destruct (_resolve_id m identifier) as [sid|]; [|left; reflexivity].
  destruct (some_nonempty (Some sid)); [|left; reflexivity].
  destruct (dict_get sid (_sessions m)) as [t|] eqn:E; [|left; reflexivity].
  right. exists sid, t. repeat split. exact E.
Qed.

Lemma aligned_create env nm cols rows cmd (m : SessionManager) :
  aligned m -> aligned (snd (create_session env nm cols rows cmd m)).
Proof.
  intros H.
  destruct (create_session_cases env nm cols rows cmd m)
    as [[e ->] | [t [name' ->]]]; [exact H|].
  destruct H as [H1 [H2 H3]]. unfold aligned. cbn [snd _sessions _history _metadata].
  rewrite !keys_dict_set, <- H2, <- H1.
  repeat split. apply add_key_NoDup, H3.
Qed.

Lemma aligned_kill identifier joined (m : SessionManager) :
  aligned m -> aligned (snd (kill_session identifier joined m)).
Proof.
  intros H.
  destruct (kill_session_cases identifier joined m)
    as [-> | [sid [t [_ [Hget ->]]]]]; [exact H|].
  destruct H as [H1 [H2 H3]]. unfold aligned. cbn [snd _sessions _history _metadata].
  assert (Hmem : dict_mem sid (_sessions m) = true)
    by (unfold dict_mem; rewrite Hget; reflexivity).
  rewrite dict_mem_keys in Hmem.
  rewrite !dict_mem_keys, <- H2, <- H1, Hmem.
  rewrite !keys_dict_del, <- H2, <- H1.
  repeat split. apply del_key_NoDup, H3.
Qed.

Lemma add_key_present k ks : has_key k ks = true -> add_key k ks = ks.
Proof. unfold add_key. intros ->. reflexivity. Qed.

Lemma dict_get_has_key {V} k (d : dict V) v :
  dict_get k d = Some v -> has_key k (keys d) = true.
Proof.
  intros H. rewrite <- dict_mem_keys. unfold dict_mem. rewrite H. reflexivity.
Qed.

Lemma aligned_record identifier command now (m : SessionManager) :
  aligned m -> aligned (record_command identifier command now m).
Proof.
  intros H. unfold record_command.
  destruct (_resolve_id m identifier) as [sid|]; [|exact H].
  destruct (some_nonempty (Some sid)); [|exact H].
  destruct (dict_get sid (_history m)) as [h|] eqn:E; [|exact H].
  destruct H as [H1 [H2 H3]]. unfold aligned. cbn [_sessions _history _metadata].
  rewrite keys_dict_set, add_key_present by (eapply dict_get_has_key, E).
  auto.
Qed.

Lemma aligned_with_session sid f (m : SessionManager) :
  aligned m -> aligned (with_session sid f m).
Proof.
  intros H. unfold with_session.
  destruct (dict_get sid (_sessions m)) as [t|] eqn:E; [|exact H].
  destruct H as [H1 [H2 H3]]. unfold aligned. cbn [_sessions _history _metadata].
  rewrite keys_dict_set, add_key_present by (eapply dict_get_has_key, E).
  auto.
Qed.

Lemma reachable_aligned (m : SessionManager) : reachable m -> aligned m.
Proof.
  induction 1.
  - repeat split. constructor.
  - apply aligned_create; assumption.
  - apply aligned_record; assumption.
  - apply aligned_kill; assumption.
  - repeat split. constructor.
  - apply aligned_with_session; assumption.
Qed.



Lemma twins_reachable : reachable twins.
Proof. unfold twins. do 2 apply reach_create. apply reach_empty. Qed.


(** *** Resolution *)

Lemma first_named_spec (identifier : text) (items : dict meta) :
  match first_named identifier items with
  | Some sid =>
      exists before meta after,
        items = before ++ (sid, meta) :: after
        /\ name meta = identifier
        /\ Forall (fun it => name (snd it) <> identifier) before
  | None => Forall (fun it => name (snd it) <> identifier) items
  end.
Proof.
  induction items as [|[sid meta] items IH]; cbn; [constructor|].
  destruct (text_eqb (name meta) identifier) eqn:E.
  - apply text_eqb_eq in E.
    exists [], meta, items. repeat split; [exact E | constructor].
  - apply text_eqb_neq in E.
    destruct (first_named identifier items) as [sid'|].
    + destruct IH as [before [meta' [after [-> [Hn Hb]]]]].
      exists ((sid, meta) :: before), meta', after.
      repeat split; [exact Hn | constructor; assumption].
    + constructor; assumption.
Qed.

(** C7.  Resolution returns the identifier itself when it is a key of the
    session map; otherwise the id of the first entry, in the order of the
    metadata map, whose name is the identifier, and nothing when no entry
    has that name.  [get_session], [kill_session], [record_command] and
    [get_history] depend on the identifier through its resolution only. *)
Theorem resolve_id_then_first_name (m : SessionManager) (identifier : text) :
  (dict_mem identifier (_sessions m) = true ->
   _resolve_id m identifier = Some identifier)
  /\ (dict_mem identifier (_sessions m) = false ->
      match _resolve_id m identifier with
      | Some sid =>
          exists before meta after,
            _metadata m = before ++ (sid, meta) :: after
            /\ name meta = identifier
            /\ Forall (fun it => name (snd it) <> identifier) before
      | None =>
          Forall (fun it => name (snd it) <> identifier) (_metadata m)
      end)
  /\ get_session m identifier
     = match _resolve_id m identifier with
       | Some sid =>
           match dict_get sid (_sessions m) with
           | Some t => Returns (Some t)
           | None => Raises KeyError
           end
       | None => Returns None
       end
  /\ forall other : text,
       _resolve_id m other = _resolve_id m identifier ->
       get_session m other = get_session m identifier
       /\ get_history m other = get_history m identifier
       /\ (forall joined,
              kill_session other joined m = kill_session identifier joined m)
       /\ (forall command now,
              record_command other command now m
              = record_command identifier command now m).
Proof.
  assert (G : forall x,
             get_session m x
             = match _resolve_id m x with
               | Some sid =>
                   match dict_get sid (_sessions m) with
                   | Some t => Returns (Some t)
                   | None => Raises KeyError
                   end
               | None => Returns None
               end).
  { intros x. unfold get_session, _resolve_id, dict_mem.
    destruct (dict_get x (_sessions m)) eqn:E; cbn [is_some];
      [rewrite E|]; reflexivity. }
  repeat split.
  - unfold _resolve_id. intros ->. reflexivity.
  - unfold _resolve_id. intros ->. apply first_named_spec.
  - apply G.
  - rewrite !G, H. reflexivity.
  - unfold get_history. rewrite H. reflexivity.
  - intros joined. unfold kill_session. rewrite H. reflexivity.
  - intros command now. unfold record_command. rewrite H. reflexivity.
Qed.

(** Two sessions of one name: the name resolves to the one created first,
    and each id resolves to itself. *)
Example resolve_twins :
  _resolve_id twins (lit "t1") = Some id_a
  /\ _resolve_id twins id_a = Some id_a
  /\ _resolve_id twins id_b = Some id_b
  /\ _resolve_id twins (lit "t2") = None.
Proof. repeat split; vm_compute; reflexivity. Qed.

(** A session named after another session's id: the id wins. *)
Example id_shadows_name :
  let m := snd (create_session (env_of id_b 2) (Some id_a) 80 24 None
                  (snd (create_session (env_of id_a 1) (Some (lit "t1"))
                                       80 24 None empty))) in
  _resolve_id m id_a = Some id_a.
Proof. vm_compute. reflexivity. Qed.

End RegistryFacts.

(* ================================================================== *)
(** ** The history endpoint *)
(* ================================================================== *)

Module ServerFacts.
Import Terminal Registry Samples.

Lemma get_history_is_a_list (m : SessionManager) (identifier : text) :
  exists items, Registry.get_history m identifier = PyList items.
Proof.
  unfold Registry.get_history.
  destruct (_resolve_id m identifier) as [[|c sid]|]; cbn [some_nonempty];
    try (eexists; reflexivity).
  destruct (dict_get (c :: sid) (_history m)); eexists; reflexivity.
Qed.

(** C2, on the code.  For an identifier that resolves to no session the
    registry hands back the empty list, which the endpoint answers with
    200 and an empty body, the answer it gives for an existing session
    without history; the endpoint answers 404 for no registry and no
    identifier. *)
Theorem history_of_unknown_session_is_ok_empty :
  _resolve_id twins (lit "ghost") = None
  /\ Server.get_history twins (lit "ghost") = Server.Ok200 []
  /\ Server.get_history twins id_a = Server.Ok200 []
  /\ forall (m : SessionManager) (identifier : text),
       (_resolve_id m identifier = None ->
        Server.get_history m identifier = Server.Ok200 [])
       /\ exists items, Server.get_history m identifier = Server.Ok200 items.
Proof.
  repeat split; try (vm_compute; reflexivity).
  - intros H. unfold Server.get_history, Registry.get_history.
    rewrite H. reflexivity.
  - unfold Server.get_history.
    destruct (get_history_is_a_list m identifier) as [items ->].
    exists items. reflexivity.
Qed.

End ServerFacts.

(* ================================================================== *)
(** ** The drain against the reader thread *)
(* ================================================================== *)

Module InterleavingFacts.
Import Terminal Interleaving Samples.

Lemma drained_all (ds : list departure) :
  forallb was_drained ds = true -> drained ds = map payload ds.
Proof.
  induction ds as [|[t|t] ds IH]; cbn; intros H;
    [reflexivity | rewrite IH by exact H; reflexivity | discriminate].
Qed.

(** One append: what left the buffer and what is in it make up what was
    there before and the new chunk. *)
Lemma step_append (x : text) (s : state) :
  exists s',
    step (Append x) s = Some s'
    /\ output s' = output s
    /\ concat (map payload (departed s')) ++ concat (buffer s')
       = (concat (map payload (departed s)) ++ concat (buffer s)) ++ x
    /\ length (buffer s') <= S (length (buffer s))
    /\ (length (buffer s) < MAXLEN ->
        departed s' = departed s /\ buffer s' = buffer s ++ [x]).
Proof.
  eexists. split; [reflexivity|]. cbn [output buffer departed].
  unfold deque_append.
  assert (L : length (buffer s ++ [x]) = S (length (buffer s)))
    by (rewrite length_app; cbn; lia).
  assert (C : concat (buffer s ++ [x]) = concat (buffer s) ++ x)
    by (rewrite concat_app; cbn; rewrite app_nil_r; reflexivity).
  rewrite L.
  destruct (Nat.ltb_spec MAXLEN (S (length (buffer s)))) as [Hlt | Hge].
  - destruct (buffer s ++ [x]) as [|y rest]; [discriminate|].
    cbn [firstn map tl]. cbn [length] in L.
    rewrite map_app, concat_app. cbn [map concat payload].
    rewrite app_nil_r, <- !app_assoc, <- C.
    repeat split; lia.
  - rewrite C, <- app_assoc. repeat split. lia.
Qed.

Lemma atomic_run (tr : list event) :
  atomic tr ->
  forall s0 : state,
    output s0 = None ->
    exists s,
      run tr s0 = Some s
      /\ output s = None
      /\ concat (map payload (departed s)) ++ concat (buffer s)
         = (concat (map payload (departed s0)) ++ concat (buffer s0))
             ++ concat (appended tr)
      /\ length (buffer s) <= length (buffer s0) + length (appended tr)
      /\ (length (buffer s0) + length (appended tr) <= MAXLEN ->
          forallb was_drained (departed s0) = true ->
          forallb was_drained (departed s) = true).
Proof.
  induction 1 as [ | x tr Hat IH | tr Hat IH ]; intros s0 Hout.
  - exists s0. cbn. rewrite app_nil_r. repeat split; auto. lia.
  - destruct (step_append x s0) as [s1 [Hs [Ho [Hlaw [Hlen Hsmall]]]]].
    destruct (IH s1 (eq_trans Ho Hout)) as [s [Hr [Ho' [Hlaw' [Hlen' Hd]]]]].
    exists s. cbn [run appended length concat]. rewrite Hs.
    repeat split; [exact Hr | exact Ho' | | lia | ].
    + rewrite Hlaw', Hlaw, <- !app_assoc. reflexivity.
    + intros Hcap Hpay.
      destruct Hsmall as [Hsame Hbuf]; [lia|].
      apply Hd; [lia | rewrite Hsame; exact Hpay].
  - destruct s0 as [b o ds]. cbn in Hout. subst o.
    destruct (IH (mkState [] None (ds ++ [Drained (concat b)])) eq_refl)
      as [s [Hr [Ho' [Hlaw' [Hlen' Hd]]]]].
    exists s. cbn [run step output buffer departed appended].
    cbn [buffer departed length] in *.
    repeat split; [exact Hr | exact Ho' | | lia | ].
    + rewrite Hlaw', map_app, concat_app. cbn. rewrite !app_nil_r.
      reflexivity.
    + intros Hcap Hpay. apply Hd; [lia|].
      rewrite forallb_app, Hpay. reflexivity.
Qed.

(** C9, as stated, fails: with the append of the second chunk scheduled
    between the two statements of the drain, that chunk is neither in what
    the drain returned nor in the buffer afterwards. *)
Lemma append_between_join_and_clear_is_lost :
  appended racy_schedule = [lit "a"; lit "b"]
  /\ run racy_schedule initial = Some (mkState [] None [Drained (lit "a")]).
Proof. split; vm_compute; reflexivity. Qed.

(** The same from any buffer with room left: the chunk appended in
    between goes with the clear. *)
Lemma racing_append_is_dropped (b : list text) (x : text)
      (ds : list departure) :
  length b < MAXLEN ->
  run [Join; Append x; Clear] (mkState b None ds)
  = Some (mkState [] None (ds ++ [Drained (concat b)])).
Proof.
  intros H. cbn [run step output buffer departed].
  rewrite length_app. cbn [length].
  replace (MAXLEN <? length b + 1) with false
    by (symmetry; apply Nat.ltb_ge; lia).
  reflexivity.
Qed.

(** C9, amended.  Along every schedule in which no append falls between
    the join and the clear of a drain, the texts that left the buffer (by
    a drain or by the bound of the deque), followed by the buffer, are the
    appended chunks in arrival order, and when no more than the capacity
    was appended, all that left was returned by a drain.  An append that
    does fall between the join and the clear is dropped by the clear. *)
Theorem atomic_drains_lose_nothing (tr : list event) :
  atomic tr ->
  (exists s,
      run tr initial = Some s
      /\ concat (map payload (departed s)) ++ concat (buffer s)
         = concat (appended tr)
      /\ (length (appended tr) <= MAXLEN ->
          concat (drained (departed s)) ++ concat (buffer s)
          = concat (appended tr)))
  /\ (forall (b : list text) (x : text) (ds : list departure),
         length b < MAXLEN ->
         run [Join; Append x; Clear] (mkState b None ds)
         = Some (mkState [] None (ds ++ [Drained (concat b)]))).
Proof.
  intros Hat. split; [|apply racing_append_is_dropped].
  destruct (atomic_run tr Hat initial eq_refl)
    as [s [Hr [_ [Hlaw [_ Hd]]]]].
  exists s. cbn in Hlaw. repeat split; [exact Hr | exact Hlaw |].
  intros Hcap. rewrite drained_all; [exact Hlaw | ].
  apply Hd; [exact Hcap | reflexivity].
Qed.

Lemma atomic_drains_lose_nothing_witness :
  exists s,
    run atomic_schedule initial = Some s
    /\ concat (map payload (departed s)) ++ concat (buffer s)
       = concat (appended atomic_schedule)
    /\ (length (appended atomic_schedule) <= MAXLEN ->
        concat (drained (departed s)) ++ concat (buffer s)
        = concat (appended atomic_schedule)).
Proof.
  apply (atomic_drains_lose_nothing atomic_schedule).
  repeat constructor.
Defined.

End InterleavingFacts.

(* ================================================================== *)
(** ** Facts about what the filter deletes *)
(* ================================================================== *)

Module DeletionFacts.
Import Regex Filter RegexFacts Chunk FilterFacts Sublist.


Lemma subseq_refl {A} (a : list A) : subseq a a.
Proof. induction a; constructor; assumption. Qed.

Lemma subseq_trans {A} (a b c : list A) :
  subseq a b -> subseq b c -> subseq a c.
Proof.
  intros Hab Hbc. revert a Hab.
  induction Hbc as [|x b c Hbc IH|x b c Hbc IH]; intros a Hab.
  - exact Hab.
  - constructor. apply IH, Hab.
  - inversion Hab; subst.
    + constructor. apply IH. assumption.
    + apply subseq_keep. apply IH. assumption.
Qed.

Lemma subseq_length {A} (a b : list A) : subseq a b -> length a <= length b.
Proof. induction 1; cbn; lia. Qed.

Lemma subseq_In {A} (a b : list A) (x : A) : subseq a b -> In x a -> In x b.
Proof.
  induction 1 as [|y a b Hab IH|y a b Hab IH]; cbn; intros Hin; auto.
  destruct Hin; auto.
Qed.

Lemma subseq_filter {A} (f : A -> bool) (l : list A) : subseq (filter f l) l.
Proof.
  induction l as [|x l IH]; cbn; [constructor|].
  destruct (f x); constructor; exact IH.
Qed.

Lemma sub_from_subseq (m : text -> option nat) :
  forall (s : text) (n : nat), subseq (sub_from m n s) s.
Proof.
  induction s as [|c t IH]; intros n; cbn; [constructor|].
  destruct n as [|n]; [|constructor; apply IH].
  destruct (m (c :: t)) as [[|k]|]; constructor; apply IH.
Qed.

Lemma re_sub_subseq (p : pattern) (s : text) : subseq (re_sub p s) s.
Proof. apply sub_from_subseq. Qed.

Lemma run_passes_subseq (ks : list pass) :
  forall s : text, subseq (run_passes ks s) s.
Proof.
  unfold run_passes.
  induction ks as [|k ks IH]; intros s; cbn [fold_left]; [apply subseq_refl|].
  eapply subseq_trans; [apply IH | apply re_sub_subseq].
Qed.

(** X1.  The filter only deletes: what it returns is the chunk with some of
    its characters taken out, the others in their order; so it is no
    longer than the chunk and holds no character the chunk did not
    hold. *)
Theorem filter_output_only_deletes (data : text) :
  subseq (_filter_output data) data
  /\ length (_filter_output data) <= length data
  /\ forall c, In c (_filter_output data) -> In c data.
Proof.
  assert (H : subseq (_filter_output data) data).
  { rewrite filter_output_passes. unfold str_replace.
    do 4 (eapply subseq_trans; [apply re_sub_subseq|]).
    eapply subseq_trans; [apply run_passes_subseq | apply re_sub_subseq]. }
  repeat split; [exact H | apply subseq_length, H |].
  intros c. apply subseq_In, H.
Qed.

(** X2.  No filtered chunk holds any of the control characters ETB (0x17), CAN
    (0x18) and FS (0x1C), wherever they stood in the chunk. *)
Theorem filter_output_drops_stray_controls (data : text) :
  ~ In ETB (_filter_output data)
  /\ ~ In CAN (_filter_output data)
  /\ ~ In FS (_filter_output data).
Proof.
  assert (H : forall c, In c (_filter_output data) ->
                        c <> ETB /\ c <> CAN /\ c <> FS).
  { intros c. rewrite filter_output_passes, !str_replace_char. intros H.
    apply filter_In in H as [H HFS]. apply filter_In in H as [H HCAN].
    apply filter_In in H as [_ HETB].
    apply negb_true_iff in HFS, HCAN, HETB.
    repeat split; intros ->; discriminate. }
  repeat split; intros Hin; apply H in Hin; tauto.
Qed.

Lemma search_no_first (e : ascii) (p : pattern) :
  forall s : text, Forall (fun c => c <> e) s ->
                   search (Chr e :: p) s = false.
Proof.
  intros s H. rewrite <- (app_nil_r s).
  rewrite search_plain_prefix by exact H. reflexivity.
Qed.

Lemma run_passes_no_esc (ks : list pass) (t : text) :
  Forall (fun c => c <> ESC) t -> run_passes ks t = t.
Proof.
  intros H. unfold run_passes.
  induction ks as [|k ks IH]; cbn [fold_left]; [reflexivity|].
  destruct (pattern_of_esc k) as [p ->].
  rewrite re_sub_no_match by (apply search_no_first, H). exact IH.
Qed.

(** X3.  A chunk without ESC, ETB, CAN and FS that does not hold the tail of
    the device-attributes response comes out of the filter as it went
    in. *)
Theorem filter_output_clean_text_unchanged (t : text) :
  forallb ordinary t = true ->
  search (map Chr DA_TAIL) t = false ->
  _filter_output t = t.
Proof.
  intros Hord Htail. rewrite filter_output_passes.
  unfold str_replace at 4. rewrite (re_sub_no_match _ _ Htail).
  rewrite run_passes_no_esc by (apply ordinary_no_esc, Hord).
  rewrite re_sub_no_match
    by (apply search_no_first, ordinary_no_esc, Hord).
  rewrite !str_replace_char. apply strip_controls_ordinary, Hord.
Qed.

Lemma filter_output_clean_text_unchanged_witness :
  _filter_output (lit "a.txt  b.txt") = lit "a.txt  b.txt".
Proof.
  apply filter_output_clean_text_unchanged; reflexivity.
Defined.

End DeletionFacts.

(* ================================================================== *)
(** ** Facts about the life of a session *)
(* ================================================================== *)

Module LifecycleFacts.
Import Regex Filter Terminal Samples TerminalFacts Lifecycle.






Lemma timeout_positive (timeout : Q) :
  Qle_bool timeout 0 = false -> Qle_bool 0 timeout = true.
Proof.
  intros E. apply Qle_bool_iff, Qlt_le_weak, Qnot_le_lt.
  intros H. apply Qle_bool_iff in H. congruence.
Qed.


Lemma read_output_after (timeout : Q) (polls : list poll) (s : TerminalAPI) :
  read_output timeout polls s
  = if Qle_bool timeout 0
    then (Returns (concat (_output_buffer s)), set_output_buffer [] s)
    else if Qle_bool timeout SLEEP_MAX
         then (Returns (concat (_output_buffer (reader_run polls s))),
               set_output_buffer [] (reader_run polls s))
         else (Raises OverflowError, s).
Proof.
  unfold read_output, sleep, bind, get, modify, ret, raise.
  destruct (Qle_bool timeout 0) eqn:E; cbn [negb]; [reflexivity|].
  rewrite (timeout_positive timeout E).
  destruct (Qle_bool timeout SLEEP_MAX); reflexivity.
Qed.


(** X5.  [get_latest_output] returns an end of what a drain would return, and
    all of it when the count is 0 or at least the number of chunks. *)
Theorem get_latest_output_is_end_of_drain (lines : Z) (s : TerminalAPI) :
  (exists older,
      concat (_output_buffer s) = older ++ get_latest_output lines s)
  /\ (lines = 0%Z \/ (Z.of_nat (length (_output_buffer s)) <= lines)%Z ->
      get_latest_output lines s = concat (_output_buffer s))
  /\ ((0 < lines <= Z.of_nat (length (_output_buffer s)))%Z ->
      get_latest_output lines s
      = concat (skipn (length (_output_buffer s) - Z.to_nat lines)
                      (_output_buffer s))
      /\ length (skipn (length (_output_buffer s) - Z.to_nat lines)
                       (_output_buffer s)) = Z.to_nat lines).
Proof.
  unfold get_latest_output. cbv zeta.
  set (b := _output_buffer s).
  set (start := if (0 <? lines)%Z then length b - Z.to_nat lines
                else Z.to_nat (- lines)).
  repeat split.
  - exists (concat (firstn start b)).
    rewrite <- concat_app, firstn_skipn. reflexivity.
  - intros H. assert (E : start = 0).
    { subst start. destruct (Z.ltb_spec 0 lines); lia. }
    rewrite E. reflexivity.
  - subst start. destruct (Z.ltb_spec 0 lines); [reflexivity | lia].
  - rewrite length_skipn. lia.
Qed.

(** *** [close] *)

Lemma close_fields (j : bool) (s : TerminalAPI) :
  _running (close j s) = false
  /\ _output_buffer (close j s) = _output_buffer s
  /\ log_file (close j s) = log_file s
  /\ config (close j s) = config s
  /\ (_running s = true -> process (close j s) = None)
  /\ (_running s = false -> close j s = s).
Proof.
  unfold close, config.
  destruct (_running s) eqn:R; [|repeat split; auto; discriminate].
  destruct (_output_thread (set_running false s)) as [[|]|];
    try destruct j; repeat split; discriminate.
Qed.

(** X6.  Closing stops the session and releases the pseudo-terminal, keeps the
    buffer, is without effect the second time, and leaves a session that
    refuses [write] and [send_command] but still hands out what it had
    buffered. *)
Theorem close_stops_and_keeps_output (j j' : bool) (s : TerminalAPI) :
  is_alive (close j s) = false
  /\ _running (close j s) = false
  /\ (_running s = true -> process (close j s) = None)
  /\ (_running s = false -> close j s = s)
  /\ close j' (close j s) = close j s
  /\ (forall t ok, fst (write t ok (close j s)) = Raises NOT_STARTED)
  /\ (forall c w ok polls,
         fst (send_command c w ok polls (close j s)) = Raises NOT_STARTED)
  /\ fst (read_output 0 [] (close j s))
     = Returns (concat (_output_buffer s)).
Proof.
  destruct (close_fields j s) as [R [B [_ [_ [P N]]]]].
  repeat split; try assumption.
  - unfold is_alive. rewrite R. reflexivity.
  - apply (close_fields j' (close j s)), R.
  - intros t ok. unfold write, bind, get, raise. rewrite R. reflexivity.
  - intros c w ok polls. unfold send_command, bind, get, raise.
    rewrite R. reflexivity.
  - change (fst (read_output 0 [] (close j s)))
      with (Returns (concat (_output_buffer (close j s)))).
    rewrite B. reflexivity.
Qed.

(** *** The reader thread after a read error *)

Lemma reader_poll_not_alive (ev : poll) (s : TerminalAPI) :
  _output_thread s <> Some Alive -> reader_poll ev s = s.
Proof.
  unfold reader_poll. destruct (_output_thread s) as [[|]|]; congruence.
Qed.

Lemma reader_run_not_alive (polls : list poll) (s : TerminalAPI) :
  _output_thread s <> Some Alive -> reader_run polls s = s.
Proof.
  unfold reader_run. intros H.
  induction polls as [|ev polls IH]; cbn [fold_left]; [reflexivity|].
  rewrite reader_poll_not_alive by exact H. exact IH.
Qed.

Lemma reader_appends_not_alive (polls : list poll) (s : TerminalAPI) :
  _output_thread s <> Some Alive -> reader_appends polls s = [].
Proof.
  intros H.
  induction polls as [|ev polls IH]; cbn [reader_appends]; [reflexivity|].
  rewrite reader_poll_not_alive by exact H. rewrite IH.
  unfold poll_appends. destruct (_output_thread s) as [[|]|];
    try reflexivity. congruence.
Qed.

(** X7.  A read error ends the reader thread and nothing else: the
    session is no longer alive but still counts as running and keeps its
    pseudo-terminal, so [write] is still passed on, while no later poll
    appends anything: [read_output], for every timeout within the range
    of [time.sleep], returns what was buffered before the error. *)
Theorem read_error_ends_liveness_only
        (s : TerminalAPI) (pty : PTY) (log_ok : bool) :
  _output_thread s = Some Alive ->
  _running s = true ->
  process s = Some pty ->
  let dead := reader_poll (mkPoll ReadRaises log_ok) s in
  is_alive dead = false
  /\ dead = set_output_thread (Some Exited) s
  /\ (forall polls, reader_run polls dead = dead
                    /\ reader_appends polls dead = [])
  /\ (forall t, write t true dead
                = (Returns tt, set_process (Some (pty_write t pty)) dead))
  /\ (forall timeout polls,
         Qle_bool timeout SLEEP_MAX = true ->
         fst (read_output timeout polls dead)
         = Returns (concat (_output_buffer s))).
Proof.
  intros Ht Hr Hp. cbv zeta.
  assert (E : reader_poll (mkPoll ReadRaises log_ok) s
              = set_output_thread (Some Exited) s).
  { unfold reader_poll. rewrite Ht, Hr, Hp. reflexivity. }
  rewrite E.
  assert (D : _output_thread (set_output_thread (Some Exited) s)
              <> Some Alive) by (cbn; discriminate).
  repeat split.
  - unfold is_alive. cbn. apply andb_false_r.
  - apply reader_run_not_alive, D.
  - apply reader_appends_not_alive, D.
  - intros t. unfold write, process_write, bind, get, modify, raise.
    cbn [_running set_output_thread]. rewrite Hr. cbn [negb].
    cbn [process set_output_thread]. rewrite Hp. reflexivity.
  - intros timeout polls Hmax. rewrite read_output_after, Hmax.
    destruct (Qle_bool timeout 0); [reflexivity|].
    rewrite reader_run_not_alive by exact D. reflexivity.
Qed.

Lemma read_error_ends_liveness_only_witness :
  is_alive (reader_poll (mkPoll ReadRaises true) started) = false
  /\ fst (write (lit "ls") true
                (reader_poll (mkPoll ReadRaises true) started))
     = Returns tt.
Proof.
  destruct (read_error_ends_liveness_only
              started (mkPTY 120 30 (Some DEFAULT_SHELL) []) true
              eq_refl eq_refl eq_refl) as (H1 & _ & _ & H4 & _).
  split; [exact H1 | rewrite H4; reflexivity].
Defined.


(** *** The log file *)


Lemma keeps_record_refl (s : TerminalAPI) : keeps_record s s.
Proof. split; [reflexivity | exists []; symmetry; apply app_nil_r]. Qed.

Lemma keeps_record_trans (a b c : TerminalAPI) :
  keeps_record a b -> keeps_record b c -> keeps_record a c.
Proof.
  intros [C1 [r1 L1]] [C2 [r2 L2]]. split; [congruence|].
  exists (r1 ++ r2). rewrite L2, L1, app_assoc. reflexivity.
Qed.

Lemma text_mode_app (a b : text) :
  text_mode (a ++ b) = text_mode a ++ text_mode b.
Proof. apply flat_map_app. Qed.

Lemma text_mode_plain (t : text) :
  ~ In LF t -> text_mode t = t.
Proof.
  unfold text_mode. induction t as [|c t IH]; intros H; [reflexivity|].
  cbn [flat_map]. destruct (Ascii.eqb c LF) eqn:E.
  - apply Ascii.eqb_eq in E. subst c. exfalso. apply H. left. reflexivity.
  - cbn [app]. rewrite IH; [reflexivity|]. intros Hin. apply H. right.
    exact Hin.
Qed.

Lemma reader_poll_log (ev : poll) (s : TerminalAPI) :
  config (reader_poll ev s) = config s
  /\ log_file (reader_poll ev s)
     = log_file s ++ (if truthy (log_path s) && log_ok ev
                      then text_mode (concat (poll_appends ev s)) else []).
Proof.
  unfold reader_poll, poll_appends, config.
  assert (N : forall b : bool, log_file s = log_file s
                                 ++ (if b then @nil ascii else []))
    by (intros []; symmetry; apply app_nil_r).
  destruct (_output_thread s) as [[|]|]; try (split; [reflexivity | apply N]).
  destruct (_running s); cbn [negb]; [|split; [reflexivity | apply N]].
  destruct (process s); [|split; [reflexivity | apply N]].
  destruct (read ev) as [[|c data]|]; try (split; [reflexivity | apply N]).
  destruct (_filter_output (c :: data)) as [|x filtered];
    [split; [reflexivity | apply N]|].
  cbn [log_path set_output_buffer].
  destruct (truthy (log_path s) && log_ok ev);
    cbn [cols rows shell_command log_path log_file set_log_file
         set_output_buffer concat];
    split; try reflexivity.
  - rewrite app_nil_r. reflexivity.
  - symmetry. apply app_nil_r.
Qed.

Lemma reader_poll_keeps_record (ev : poll) (s : TerminalAPI) :
  keeps_record s (reader_poll ev s).
Proof.
  destruct (reader_poll_log ev s) as [C L]. split; [exact C|].
  eexists. exact L.
Qed.

Lemma reader_run_keeps_record (polls : list poll) :
  forall s, keeps_record s (reader_run polls s).
Proof.
  unfold reader_run.
  induction polls as [|ev polls IH]; intros s; cbn [fold_left].
  - apply keeps_record_refl.
  - eapply keeps_record_trans; [apply reader_poll_keeps_record | apply IH].
Qed.

(** X8.  With a log path and every write to the file going through, the
    log file receives the chunks the reader thread appends to the buffer,
    in order and whole, whatever the buffer later evicts or a drain
    takes, as the text mode of the file stores them: every line feed as
    carriage return and line feed, every other character as it is, so a
    chunk without line feed verbatim.  Without a log path nothing is
    written. *)
Theorem log_file_is_transcript (polls : list poll) (s : TerminalAPI) :
  (truthy (log_path s) = true ->
   forallb log_ok polls = true ->
   log_file (reader_run polls s)
   = log_file s ++ text_mode (concat (reader_appends polls s)))
  /\ (truthy (log_path s) = false ->
      log_file (reader_run polls s) = log_file s)
  /\ (forall a b : text,
         text_mode (a ++ LF :: b) = text_mode a ++ CR :: LF :: text_mode b)
  /\ (forall t : text, ~ In LF t -> text_mode t = t).
Proof.
  unfold reader_run. split; [|split; [|split]].
  - revert s. induction polls as [|ev polls IH]; intros s Hp Hok;
      cbn [fold_left reader_appends concat].
    + symmetry. apply app_nil_r.
    + cbn in Hok. apply andb_prop in Hok as [Hev Hok].
      destruct (reader_poll_log ev s) as [C L].
      rewrite IH; [| | exact Hok].
      * rewrite L, Hp, Hev, concat_app, text_mode_app, app_assoc.
        reflexivity.
      * unfold config in C. replace (log_path (reader_poll ev s))
          with (log_path s) by congruence. exact Hp.
  - revert s. induction polls as [|ev polls IH]; intros s Hp;
      cbn [fold_left]; [reflexivity|].
    destruct (reader_poll_log ev s) as [C L].
    rewrite IH.
    + rewrite L, Hp. apply app_nil_r.
    + unfold config in C. replace (log_path (reader_poll ev s))
        with (log_path s) by congruence. exact Hp.
  - intros a b. rewrite text_mode_app. reflexivity.
  - apply text_mode_plain.
Qed.

Lemma sleep_keeps_record (t : Q) (polls : list poll) (s : TerminalAPI) :
  keeps_record s (snd (sleep t polls s)).
Proof.
  destruct (sleep_cases t polls s) as [-> | [e ->]];
    [apply reader_run_keeps_record | apply keeps_record_refl].
Qed.

Lemma same_record (s s' : TerminalAPI) :
  config s' = config s -> log_file s' = log_file s -> keeps_record s s'.
Proof.
  intros C L. split; [exact C|]. exists []. rewrite L, app_nil_r. reflexivity.
Qed.

Lemma process_write_keeps_record (t : text) (ok : bool) (s : TerminalAPI) :
  keeps_record s (snd (process_write t ok s)).
Proof.
  unfold process_write, bind, get, modify, raise.
  destruct (process s), ok; apply same_record; reflexivity.
Qed.

Lemma read_output_keeps_record (t : Q) (polls : list poll) (s : TerminalAPI) :
  keeps_record s (snd (read_output t polls s)).
Proof.
  rewrite read_output_after.
  destruct (Qle_bool t 0), (Qle_bool t SLEEP_MAX); cbn [snd];
    try (apply same_record; reflexivity).
  eapply keeps_record_trans; [apply reader_run_keeps_record|].
  apply same_record; reflexivity.
Qed.

Lemma start_keeps_record spawn boot (s : TerminalAPI) :
  keeps_record s (snd (start spawn boot s)).
Proof.
  unfold start, bind, get, modify, raise.
  destruct (_running s); [apply keeps_record_refl|].
  destruct spawn; cbn [snd]; try (apply same_record; reflexivity).
  eapply keeps_record_trans; [|apply sleep_keeps_record].
  apply same_record; reflexivity.
Qed.

Lemma write_keeps_record t ok (s : TerminalAPI) :
  keeps_record s (snd (write t ok s)).
Proof.
  unfold write, bind, get, raise.
  destruct (_running s); cbn [negb];
    [apply process_write_keeps_record | apply keeps_record_refl].
Qed.

Lemma send_command_keeps_record c w ok polls (s : TerminalAPI) :
  keeps_record s (snd (send_command c w ok polls s)).
Proof.
  unfold send_command, bind, get, modify, raise.
  destruct (_running s); cbn [negb]; [|apply keeps_record_refl].
  eapply keeps_record_trans;
    [apply (same_record s (set_output_buffer [] s)); reflexivity|].
  pose proof (process_write_keeps_record (c ++ [CR]) ok
                                         (set_output_buffer [] s)) as H1.
  destruct (process_write (c ++ [CR]) ok (set_output_buffer [] s))
    as [[[]|e] s1]; cbn [snd] in *; [|exact H1].
  eapply keeps_record_trans; [exact H1|].
  pose proof (sleep_keeps_record w polls s1) as H2.
  destruct (sleep w polls s1) as [[[]|e] s2]; cbn [snd] in *; [|exact H2].
  eapply keeps_record_trans; [exact H2|].
  apply (read_output_keeps_record 0 [] s2).
Qed.

Lemma close_keeps_record j (s : TerminalAPI) : keeps_record s (close j s).
Proof.
  destruct (close_fields j s) as [_ [_ [L [C _]]]].
  apply same_record; assumption.
Qed.

(** X9.  No method changes the geometry, the command line or the log path the
    object was constructed with, and none removes anything from the log
    file: after each of them the old content of the file is a prefix of
    the new. *)
Theorem methods_keep_config_and_log (s : TerminalAPI) :
  (forall spawn boot, keeps_record s (snd (start spawn boot s)))
  /\ (forall t ok, keeps_record s (snd (write t ok s)))
  /\ (forall c w ok polls, keeps_record s (snd (send_command c w ok polls s)))
  /\ (forall t polls, keeps_record s (snd (read_output t polls s)))
  /\ (forall ev, keeps_record s (reader_poll ev s))
  /\ (forall j, keeps_record s (close j s)).
Proof.
  repeat split; intros;
    first [ apply start_keeps_record | apply write_keeps_record
          | apply send_command_keeps_record | apply read_output_keeps_record
          | apply reader_poll_keeps_record | apply close_keeps_record ].
Qed.

(** *** [start] going through *)






(** *** [send_command] and what was buffered before *)

(** X11.  What [send_command] returns does not depend on what the buffer held
    when it was called: output not yet read is discarded, never
    returned. *)
Theorem send_command_discards_pending
        (b : list text) (c : text) (w : Q) (ok : bool) (polls : list poll)
        (s : TerminalAPI) :
  fst (send_command c w ok polls (set_output_buffer b s))
  = fst (send_command c w ok polls s)
  /\ (_running s = true ->
      send_command c w ok polls (set_output_buffer b s)
      = send_command c w ok polls s).
Proof.
  unfold send_command, bind, get, modify, raise.
  cbn [_running set_output_buffer].
  destruct (_running s); cbn [negb]; split; try reflexivity.
  discriminate.
Qed.

(** *** The context manager *)

(** X12.  A [with] block whose [__enter__] goes through ends with [close] on
    the session as the body left it, so with the session stopped whatever
    the body did, and hands on the body's result or exception; when
    [__enter__] raises, the body and [__exit__] do not run and the
    exception goes to the caller. *)
Theorem with_block_closes {A} (spawn : spawn_result) (boot : list poll)
        (joined : bool) (body : M A) (s : TerminalAPI) :
  (raised (fst (start spawn boot s)) = false ->
   fst (with_block spawn boot joined body s)
   = fst (body (snd (start spawn boot s)))
   /\ snd (with_block spawn boot joined body s)
      = close joined (snd (body (snd (start spawn boot s))))
   /\ _running (snd (with_block spawn boot joined body s)) = false
   /\ is_alive (snd (with_block spawn boot joined body s)) = false)
  /\ (forall e, fst (start spawn boot s) = Raises e ->
      with_block spawn boot joined body s
      = (Raises e, snd (start spawn boot s))).
Proof.
  unfold with_block, __enter__, __exit__, bind, modify, ret.
  destruct (start spawn boot s) as [[[]|e] s1]; cbn [fst snd raised]; split;
    try discriminate; try (intros e' H; congruence); intros _.
  destruct (body s1) as [r s2]. cbn [fst snd].
  destruct (close_fields joined s2) as [R _].
  repeat split; [exact R|]. unfold is_alive. rewrite R. reflexivity.
Qed.

(** *** The bound of the buffer, throughout *)


Lemma reader_poll_bounded (ev : poll) (s : TerminalAPI) :
  bounded s -> bounded (reader_poll ev s).
Proof.
  unfold bounded. intros H. rewrite reader_poll_buffer.
  pose proof (poll_appends_length ev s) as L.
  destruct (poll_appends ev s) as [|x [|y l]]; cbn [fold_left];
    [exact H | | cbn in L; lia].
  rewrite deque_append_length by exact H. lia.
Qed.

Lemma reader_run_bounded (polls : list poll) :
  forall s, bounded s -> bounded (reader_run polls s).
Proof.
  unfold reader_run.
  induction polls as [|ev polls IH]; intros s H; [exact H|].
  cbn [fold_left]. apply IH, reader_poll_bounded, H.
Qed.

Lemma sleep_bounded t polls (s : TerminalAPI) :
  bounded s -> bounded (snd (sleep t polls s)).
Proof.
  intros H.
  destruct (sleep_cases t polls s) as [-> | [e ->]];
    [apply reader_run_bounded|]; exact H.
Qed.

Lemma cleared_bounded (s : TerminalAPI) : bounded (set_output_buffer [] s).
Proof. unfold bounded. cbn. lia. Qed.

(** X13.  The buffer of a session never holds more than 10000 chunks. *)
Theorem buffer_within_capacity (s : TerminalAPI) :
  reachable s -> length (_output_buffer s) <= MAXLEN.
Proof.
  change (reachable s -> bounded s).
  induction 1 as [c r cmd lp lf | spawn boot s _ IH | t ok s _ IH
                  | cmd w ok polls s _ IH | t polls s _ IH
                  | ev s _ IH | j s _ IH].
  - unfold bounded. cbn. lia.
  - unfold start, bind, get, modify, raise.
    destruct (_running s); [exact IH|].
    destruct spawn; cbn [snd]; try exact IH.
    apply sleep_bounded. exact IH.
  - unfold write, process_write, bind, get, modify, raise.
    destruct (_running s); cbn [negb]; [|exact IH].
    destruct (process s), ok; exact IH.
  - unfold send_command, process_write, bind, get, modify, raise.
    destruct (_running s); cbn [negb]; [|exact IH].
    cbn [process set_output_buffer].
    destruct (process s), ok; cbn [snd]; try apply cleared_bounded.
    match goal with
    | |- context [sleep w polls ?x] =>
        pose proof (sleep_bounded w polls x (cleared_bounded s)) as H;
        destruct (sleep w polls x) as [[[]|e] s2]
    end; cbn [snd] in *; [|exact H].
    apply cleared_bounded.
  - rewrite read_output_after.
    destruct (Qle_bool t 0), (Qle_bool t SLEEP_MAX); cbn [snd];
      first [apply cleared_bounded | exact IH].
  - apply reader_poll_bounded, IH.
  - unfold bounded. rewrite (proj1 (proj2 (close_fields j s))). exact IH.
Qed.

Lemma buffer_within_capacity_witness :
  length (_output_buffer (reader_run sample_polls started)) <= MAXLEN.
Proof.
  apply buffer_within_capacity.
  unfold reader_run, sample_polls. cbn [fold_left].
  do 4 apply reach_reader_poll. apply reach_start, reach_init.
Defined.

End LifecycleFacts.

(* ================================================================== *)
(** ** Facts about the session manager *)
(* ================================================================== *)

Module ManagerFacts.
Import Regex Filter Terminal Registry Samples TerminalFacts RegistryFacts.
Import Lifecycle Names LifecycleFacts.

(** *** [safe_name] *)


Lemma name_char_not_space (c : ascii) : name_char c = true -> isspace c = false.
Proof.
  destruct c as [[] [] [] [] [] [] [] []]; vm_compute; congruence.
Qed.

Lemma lstrip_In (c : ascii) (t : text) : In c (lstrip t) -> In c t.
Proof.
  induction t as [|x t IH]; cbn; [tauto|].
  destruct (isspace x); cbn; tauto.
Qed.

Lemma strip_In (c : ascii) (t : text) : In c (strip t) -> In c t.
Proof.
  unfold strip. intros H. apply in_rev in H. apply lstrip_In in H.
  apply in_rev in H. apply lstrip_In, H.
Qed.

Lemma lstrip_no_space (t : text) :
  Forall (fun c => isspace c = false) t -> lstrip t = t.
Proof.
  destruct t as [|c t]; intros H; [reflexivity|].
  inversion H as [|? ? Hc _]; subst. cbn. rewrite Hc. reflexivity.
Qed.

Lemma strip_no_space (t : text) :
  Forall (fun c => isspace c = false) t -> strip t = t.
Proof.
  intros H. unfold strip. rewrite (lstrip_no_space t H).
  rewrite lstrip_no_space by (apply Forall_rev, H). apply rev_involutive.
Qed.

Lemma safe_name_chars (name : text) :
  Forall (fun c => name_char c = true) (safe_name name).
Proof.
  unfold safe_name. apply Forall_forall. intros c Hc.
  apply in_map_iff in Hc as [x [<- Hx]].
  apply strip_In, filter_In in Hx as [_ Hk].
  cbv beta in Hk.
  destruct (Ascii.eqb x " ") eqn:E; [reflexivity|].
  unfold name_char. rewrite orb_false_r in Hk. exact Hk.
Qed.

(** X14.  The file-name component made of a session name consists of
    alphanumeric characters, hyphens and underscores only (so of no
    space, dot, slash or backslash), and making it again of itself
    changes nothing. *)
Theorem safe_name_is_file_name_safe (name : text) :
  Forall (fun c => name_char c = true) (safe_name name)
  /\ ~ In " "%char (safe_name name)
  /\ ~ In "."%char (safe_name name)
  /\ ~ In "/"%char (safe_name name)
  /\ ~ In "\"%char (safe_name name)
  /\ safe_name (safe_name name) = safe_name name.
Proof.
  pose proof (safe_name_chars name) as H.
  assert (N : forall c, name_char c = false -> ~ In c (safe_name name)).
  { intros c Hc Hin. rewrite Forall_forall in H. specialize (H c Hin).
    congruence. }
  repeat split; try (apply N; reflexivity); [exact H|].
  set (u := safe_name name) in *. unfold safe_name.
  assert (F : filter (fun c => isalnum c || Ascii.eqb c " "
                               || Ascii.eqb c "-" || Ascii.eqb c "_") u = u).
  { apply forallb_filter_id. apply forallb_forall. intros c Hc.
    rewrite Forall_forall in H. specialize (H c Hc). unfold name_char in H.
    apply orb_prop in H as [H | H]; [|rewrite H; apply orb_true_r].
    apply orb_prop in H as [H | H]; rewrite H;
      [reflexivity | rewrite !orb_true_r; reflexivity]. }
  rewrite F, strip_no_space.
  - rewrite <- (map_id u) at 2. apply map_ext_in. intros c Hc.
    destruct (Ascii.eqb c " ") eqn:E; [|reflexivity].
    apply Ascii.eqb_eq in E. subst c. exfalso.
    apply (N " "%char eq_refl), Hc.
  - eapply Forall_impl; [|exact H]. apply name_char_not_space.
Qed.

(** *** Resolution in reachable states *)

Lemma first_named_key (identifier sid : text) (items : dict meta) :
  first_named identifier items = Some sid -> has_key sid (keys items) = true.
Proof.
  unfold has_key, keys.
  induction items as [|[k v] items IH]; cbn; [discriminate|].
  destruct (text_eqb (name v) identifier).
  - intros H. inversion H; subst. rewrite text_eqb_refl. reflexivity.
  - intros H. rewrite (IH H). apply orb_true_r.
Qed.

Lemma has_key_dict_get {V} (k : text) (d : dict V) :
  has_key k (keys d) = true -> exists v, dict_get k d = Some v.
Proof.
  rewrite <- dict_mem_keys. unfold dict_mem.
  destruct (dict_get k d) as [v|]; [eauto | discriminate].
Qed.

Lemma resolved_is_registered (m : SessionManager) (identifier sid : text) :
  aligned m ->
  _resolve_id m identifier = Some sid ->
  has_key sid (keys (_sessions m)) = true.
Proof.
  intros [H1 [H2 _]]. unfold _resolve_id.
  destruct (dict_mem identifier (_sessions m)) eqn:E.
  - intros H. inversion H; subst. rewrite <- dict_mem_keys. exact E.
  - intros H. apply first_named_key in H. rewrite H1, H2. exact H.
Qed.

Lemma get_session_resolved (m : SessionManager) (x : text) :
  get_session m x
  = match _resolve_id m x with
    | Some sid =>
        match dict_get sid (_sessions m) with
        | Some t => Returns (Some t)
        | None => Raises KeyError
        end
    | None => Returns None
    end.
Proof.
  unfold get_session, _resolve_id, dict_mem.
  destruct (dict_get x (_sessions m)) eqn:E; cbn [is_some];
    [rewrite E|]; reflexivity.
Qed.

Lemma resolved_entries (m : SessionManager) (identifier sid : text) :
  aligned m ->
  _resolve_id m identifier = Some sid ->
  exists t h meta,
    dict_get sid (_sessions m) = Some t
    /\ dict_get sid (_history m) = Some h
    /\ dict_get sid (_metadata m) = Some meta.
Proof.
  intros Hal E.
  pose proof (resolved_is_registered m identifier sid Hal E) as K.
  destruct Hal as [H1 [H2 _]].
  destruct (has_key_dict_get sid (_sessions m) K) as [t Ht].
  rewrite H1 in K. destruct (has_key_dict_get sid (_history m) K) as [h Hh].
  rewrite H2 in K. destruct (has_key_dict_get sid (_metadata m) K) as [me Hm].
  exists t, h, me. auto.
Qed.

(** X15.  In every reachable registry state an identifier that resolves,
    resolves to a registered id, with its session, its history and its
    metadata; so [get_session] never raises: it returns the session of
    the resolved id, or nothing when the identifier does not resolve. *)
Theorem resolution_finds_registered_session
        (m : SessionManager) (identifier : text) :
  reachable m ->
  match _resolve_id m identifier with
  | Some sid =>
      exists t h meta,
        dict_get sid (_sessions m) = Some t
        /\ dict_get sid (_history m) = Some h
        /\ dict_get sid (_metadata m) = Some meta
        /\ get_session m identifier = Returns (Some t)
  | None => get_session m identifier = Returns None
  end.
Proof.
  intros Hreach. pose proof (reachable_aligned m Hreach) as Hal.
  rewrite get_session_resolved.
  destruct (_resolve_id m identifier) as [sid|] eqn:E; [|reflexivity].
  destruct (resolved_entries m identifier sid Hal E) as [t [h [me [Ht [Hh Hm]]]]].
  exists t, h, me. rewrite Ht. auto.
Qed.

Lemma resolution_finds_registered_session_witness :
  match _resolve_id twins (lit "t1") with
  | Some sid =>
      exists t h meta,
        dict_get sid (_sessions twins) = Some t
        /\ dict_get sid (_history twins) = Some h
        /\ dict_get sid (_metadata twins) = Some meta
        /\ get_session twins (lit "t1") = Returns (Some t)
  | None => get_session twins (lit "t1") = Returns None
  end.
Proof.
  apply (resolution_finds_registered_session twins (lit "t1")).
  unfold twins. do 2 apply reach_create. apply reach_empty.
Defined.

(** *** History *)

(** X16.  Recording a command against an identifier that resolves adds one
    entry at the end of that session's history and changes no other
    session's history and no session or metadata; against an identifier
    that does not resolve it changes nothing, silently. *)
Theorem record_command_appends_to_one_history
        (m : SessionManager) (identifier command : text) (now : Q) :
  reachable m ->
  let m' := record_command identifier command now m in
  match _resolve_id m identifier with
  | Some sid =>
      sid <> [] ->
      exists h,
        get_history m identifier = PyList h
        /\ get_history m' identifier = PyList (h ++ [mkEntry command now])
        /\ _sessions m' = _sessions m
        /\ _metadata m' = _metadata m
        /\ (forall k, k <> sid ->
                      dict_get k (_history m') = dict_get k (_history m))
        /\ (forall other,
               _resolve_id m other <> Some sid ->
               get_history m' other = get_history m other)
  | None => m' = m
  end.
Proof.
  intros Hreach. cbv zeta.
  pose proof (reachable_aligned m Hreach) as Hal.
  destruct (_resolve_id m identifier) as [sid|] eqn:Hres;
    [|unfold record_command; rewrite Hres; reflexivity].
  intros Hne.
  destruct (resolved_entries m identifier sid Hal Hres)
    as [t [h [me [Ht [Hh Hm]]]]].
  assert (Hnz : some_nonempty (Some sid) = true)
    by (destruct sid; [congruence | reflexivity]).
  assert (R : record_command identifier command now m
              = mkSessionManager (_sessions m)
                  (dict_set sid (h ++ [mkEntry command now]) (_history m))
                  (_metadata m)).
  { unfold record_command. rewrite Hres, Hnz, Hh. reflexivity. }
  rewrite R. exists h.
  assert (Same : forall x,
             _resolve_id (mkSessionManager (_sessions m)
                            (dict_set sid (h ++ [mkEntry command now])
                                      (_history m)) (_metadata m)) x
             = _resolve_id m x) by reflexivity.
  repeat split.
  - unfold get_history. rewrite Hres, Hnz, Hh. reflexivity.
  - unfold get_history. rewrite Same, Hres, Hnz. cbn [_history].
    rewrite dict_get_set_same. reflexivity.
  - intros k Hk. cbn [_history]. apply dict_get_set_other, Hk.
  - intros other Ho. unfold get_history. rewrite Same. cbn [_history].
    destruct (_resolve_id m other) as [k|]; [|reflexivity].
    destruct (some_nonempty (Some k)); [|reflexivity].
    rewrite dict_get_set_other by congruence. reflexivity.
Qed.

Lemma record_command_appends_to_one_history_witness :
  get_history (record_command (lit "t1") (lit "ls") 3 twins) (lit "t1")
  = PyList [mkEntry (lit "ls") 3]
  /\ get_history (record_command (lit "t1") (lit "ls") 3 twins) id_b
     = PyList [].
Proof.
  pose proof (record_command_appends_to_one_history
                twins (lit "t1") (lit "ls") 3 twins_reachable) as H.
  cbv zeta in H.
  change (_resolve_id twins (lit "t1")) with (Some id_a) in H.
  destruct H as [h [H0 [H1 [_ [_ [_ H2]]]]]]; [discriminate|].
  split.
  - rewrite H1. inversion H0. reflexivity.
  - rewrite H2; [reflexivity | discriminate].
Defined.

(** *** [list_sessions] *)

Lemma list_sessions_ids (m : SessionManager) :
  map info_id (list_sessions m) = keys (_sessions m).
Proof.
  unfold list_sessions, keys. rewrite map_map. apply map_ext.
  intros [sid t]. destruct (dict_get sid (_metadata m)); reflexivity.
Qed.

(** X17.  [list_sessions] describes every registered session once, in the order
    of registration, with the name and creation time of its metadata
    entry and the liveness and log path of its session object; the
    fallback name for a session without metadata is never seen. *)
Theorem list_sessions_describes_registry (m : SessionManager) :
  reachable m ->
  map info_id (list_sessions m) = keys (_sessions m)
  /\ NoDup (map info_id (list_sessions m))
  /\ Forall (fun info =>
               exists t,
                 dict_get (info_id info) (_sessions m) = Some t
                 /\ dict_get (info_id info) (_metadata m)
                    = Some (mkMeta (info_name info) (info_created_at info))
                 /\ info_alive info = is_alive t
                 /\ info_log_path info = log_path t)
            (list_sessions m).
Proof.
  intros Hreach. destruct (reachable_aligned m Hreach) as [H1 [H2 H3]].
  repeat split; [apply list_sessions_ids | rewrite list_sessions_ids; exact H3|].
  apply Forall_forall. intros info Hin. unfold list_sessions in Hin.
  apply in_map_iff in Hin as [[sid t] [Hinfo Hst]].
  assert (Hget : dict_get sid (_sessions m) = Some t).
  { clear - Hst H3. unfold keys in H3.
    induction (_sessions m) as [|[k v] d IH]; [contradiction|].
    cbn in *. inversion H3 as [|? ? Hk Hd]; subst.
    destruct Hst as [E | Hst].
    - inversion E; subst. rewrite text_eqb_refl. reflexivity.
    - destruct (text_eqb sid k) eqn:E; [|apply IH; assumption].
      apply text_eqb_eq in E. subst k. exfalso. apply Hk.
      apply (in_map fst) in Hst. exact Hst. }
  assert (K : has_key sid (keys (_metadata m)) = true)
    by (rewrite <- H2, <- H1; eapply dict_get_has_key, Hget).
  destruct (has_key_dict_get sid (_metadata m) K) as [[nm ct] Hm].
  rewrite Hm in Hinfo. subst info. cbn. exists t. auto.
Qed.

Lemma list_sessions_describes_registry_witness :
  map info_id (list_sessions twins) = [id_a; id_b]
  /\ map info_name (list_sessions twins) = [lit "t1"; lit "t1"].
Proof.
  destruct (list_sessions_describes_registry twins twins_reachable)
    as [H _].
  split; [rewrite H|]; reflexivity.
Defined.

(** *** [create_session] *)











(** *** [kill_session] *)

Lemma dict_get_del_same {V} (k : text) (d : dict V) :
  NoDup (keys d) -> dict_get k (dict_del k d) = None.
Proof.
  intros H. pose proof (del_key_gone k (keys d) H) as G.
  rewrite <- keys_dict_del, <- dict_mem_keys in G. unfold dict_mem in G.
  destruct (dict_get k (dict_del k d)); [discriminate | reflexivity].
Qed.

(** X20.  In every reachable registry state, killing by an identifier that
    resolves closes the session object of the resolved id (which is then
    not running, whoever still holds it), answers [True], and takes the
    id out of all three maps, leaving the entries of every other id and
    their order as they were; killing by an identifier that does not
    resolve answers [False] and changes nothing. *)
Theorem kill_session_closes_and_forgets
        (m : SessionManager) (identifier : text) (joined : bool) :
  reachable m ->
  let r := kill_session identifier joined m in
  match _resolve_id m identifier with
  | Some sid =>
      sid <> [] ->
      exists t,
        dict_get sid (_sessions m) = Some t
        /\ fst r = (true, Some (close joined t))
        /\ _running (close joined t) = false
        /\ is_alive (close joined t) = false
        /\ dict_get sid (_sessions (snd r)) = None
        /\ dict_get sid (_history (snd r)) = None
        /\ dict_get sid (_metadata (snd r)) = None
        /\ keys (_sessions (snd r)) = del_key sid (keys (_sessions m))
        /\ (forall k, k <> sid ->
              dict_get k (_sessions (snd r)) = dict_get k (_sessions m)
              /\ dict_get k (_history (snd r)) = dict_get k (_history m)
              /\ dict_get k (_metadata (snd r)) = dict_get k (_metadata m))
  | None => r = ((false, None), m)
  end.
Proof.
  intros Hreach. cbv zeta.
  pose proof (reachable_aligned m Hreach) as Hal.
  destruct (_resolve_id m identifier) as [sid|] eqn:Hres;
    [|unfold kill_session; rewrite Hres; reflexivity].
  intros Hne.
  destruct (resolved_entries m identifier sid Hal Hres)
    as [t [h [me [Ht [Hh Hm]]]]].
  assert (Hnz : some_nonempty (Some sid) = true)
    by (destruct sid; [congruence | reflexivity]).
  assert (K : kill_session identifier joined m
              = ((true, Some (close joined t)),
                 mkSessionManager (dict_del sid (_sessions m))
                                  (dict_del sid (_history m))
                                  (dict_del sid (_metadata m)))).
  { unfold kill_session, dict_mem. rewrite Hres, Hnz, Ht, Hh, Hm.
    reflexivity. }
  rewrite K. cbn [fst snd _sessions _history _metadata].
  destruct Hal as [H1 [H2 H3]].
  destruct (close_fields joined t) as [R _].
  exists t. repeat split; try assumption.
  - unfold is_alive. rewrite R. reflexivity.
  - apply dict_get_del_same, H3.
  - apply dict_get_del_same. rewrite <- H1. exact H3.
  - apply dict_get_del_same. rewrite <- H2, <- H1. exact H3.
  - apply keys_dict_del.
  - apply dict_get_del_other; assumption.
  - apply dict_get_del_other; assumption.
  - apply dict_get_del_other; assumption.
Qed.

Lemma kill_session_closes_and_forgets_witness :
  fst (fst (kill_session (lit "t1") true twins)) = true
  /\ keys (_sessions (snd (kill_session (lit "t1") true twins))) = [id_b].
Proof.
  pose proof (kill_session_closes_and_forgets
                twins (lit "t1") true twins_reachable) as H.
  cbv zeta in H.
  change (_resolve_id twins (lit "t1")) with (Some id_a) in H.
  destruct H as (t & _ & H1 & _ & _ & _ & _ & _ & H2 & _); [discriminate|].
  split; [rewrite H1; reflexivity | rewrite H2; reflexivity].
Defined.

End ManagerFacts.

(* ================================================================== *)
(** ** Facts about the endpoints *)
(* ================================================================== *)

Module EndpointFacts.
Import Regex Filter Terminal Registry Samples TerminalFacts RegistryFacts.
Import Lifecycle Names LifecycleFacts ManagerFacts.
Import Endpoints MoreSamples.

Lemma with_session_get (sid : text) (f : TerminalAPI -> TerminalAPI)
      (m : SessionManager) (t : TerminalAPI) :
  dict_get sid (_sessions m) = Some t ->
  dict_get sid (_sessions (with_session sid f m)) = Some (f t).
Proof.
  intros H. unfold with_session. rewrite H. cbn [_sessions].
  apply dict_get_set_same.
Qed.

Lemma with_session_other (sid k : text) (f : TerminalAPI -> TerminalAPI)
      (m : SessionManager) :
  k <> sid ->
  dict_get k (_sessions (with_session sid f m)) = dict_get k (_sessions m).
Proof.
  intros H. unfold with_session.
  destruct (dict_get sid (_sessions m)); [|reflexivity].
  cbn [_sessions]. apply dict_get_set_other, H.
Qed.

Lemma with_session_rest (sid : text) (f : TerminalAPI -> TerminalAPI)
      (m : SessionManager) :
  _history (with_session sid f m) = _history m
  /\ _metadata (with_session sid f m) = _metadata m
  /\ keys (_sessions (with_session sid f m)) = keys (_sessions m).
Proof.
  unfold with_session.
  destruct (dict_get sid (_sessions m)) as [t|] eqn:E; [|auto].
  cbn [_sessions _history _metadata]. repeat split.
  rewrite keys_dict_set. apply add_key_present.
  eapply dict_get_has_key, E.
Qed.

Lemma record_command_rest (x c : text) (now : Q) (m : SessionManager) :
  _sessions (record_command x c now m) = _sessions m
  /\ _metadata (record_command x c now m) = _metadata m.
Proof.
  unfold record_command.
  destruct (_resolve_id m x) as [sid|]; [|auto].
  destruct (some_nonempty (Some sid)); [|auto].
  destruct (dict_get sid (_history m)); auto.
Qed.

Lemma record_command_resolve (x c y : text) (now : Q) (m : SessionManager) :
  _resolve_id (record_command x c now m) y = _resolve_id m y.
Proof.
  destruct (record_command_rest x c now m) as [S Md].
  unfold _resolve_id. rewrite S, Md. reflexivity.
Qed.

Lemma call_rest {A} (x : text) (method : M A) (session : TerminalAPI)
      (m : SessionManager) :
  _history (snd (call x method session m)) = _history m
  /\ _metadata (snd (call x method session m)) = _metadata m
  /\ keys (_sessions (snd (call x method session m))) = keys (_sessions m).
Proof.
  unfold call. cbn [snd].
  destruct (_resolve_id m x) as [sid|]; [apply with_session_rest | auto].
Qed.

(** *** Identifiers that do not resolve *)

(** X21.  For an identifier that is neither a registered id nor the name of a
    session, the command, input and output endpoints and the kill
    endpoint all answer 404 [Session not found] and leave the registry as
    it was. *)
Theorem unknown_identifier_is_not_found
        (m : SessionManager) (x c : text) (now timeout : Q)
        (ok joined : bool) (polls : list poll) :
  _resolve_id m x = None ->
  send_command x c now ok polls m = (Failed SESSION_NOT_FOUND, m)
  /\ send_raw_input x c ok polls m = (Failed SESSION_NOT_FOUND, m)
  /\ get_output x timeout polls m = (Failed SESSION_NOT_FOUND, m)
  /\ kill_session x joined m = (Failed SESSION_NOT_FOUND, m).
Proof.
  intros H.
  unfold send_command, send_raw_input, get_output, kill_session.
  rewrite (get_session_resolved m x), H.
  unfold Registry.kill_session. rewrite H. auto.
Qed.

Lemma unknown_identifier_is_not_found_witness :
  send_command id_b (lit "ls") 3 true [] (snd (create_session (env_of id_a 1)
     (mkCreateSessionRequest None None None 80 24) empty))
  = (Failed SESSION_NOT_FOUND,
     snd (create_session (env_of id_a 1)
            (mkCreateSessionRequest None None None 80 24) empty)).
Proof.
  apply (unknown_identifier_is_not_found
           (snd (create_session (env_of id_a 1)
                   (mkCreateSessionRequest None None None 80 24) empty))
           id_b (lit "ls") 3 0 true true []).
  reflexivity.
Defined.

(** *** The command endpoint *)

(** X22.  On a live session of a reachable registry the command endpoint adds
    the command to the history of the resolved id before it sends it: the
    entry is there whether the session took the command or sending it
    raised (which then escapes the handler, as it does whenever the
    pseudo-terminal refuses the write); the reply and the session the
    registry holds afterwards are those of [send_command] with its
    default wait; nothing else changes. *)
Theorem command_endpoint_records_then_sends
        (m : SessionManager) (x sid c : text) (now : Q) (ok : bool)
        (polls : list poll) (t : TerminalAPI) :
  reachable m ->
  _resolve_id m x = Some sid ->
  sid <> [] ->
  dict_get sid (_sessions m) = Some t ->
  is_alive t = true ->
  let r := send_command x c now ok polls m in
  let run := Terminal.send_command c (1 # 2) ok polls t in
  fst r = match fst run with
          | Returns output => Ok output
          | Raises e => Failed (Escaped e)
          end
  /\ dict_get sid (_sessions (snd r)) = Some (snd run)
  /\ (exists h,
        dict_get sid (_history m) = Some h
        /\ dict_get sid (_history (snd r)) = Some (h ++ [mkEntry c now]))
  /\ (forall k, k <> sid ->
        dict_get k (_sessions (snd r)) = dict_get k (_sessions m)
        /\ dict_get k (_history (snd r)) = dict_get k (_history m))
  /\ _metadata (snd r) = _metadata m
  /\ (ok = false -> exists e, fst r = Failed (Escaped e)).
Proof.
  intros Hreach Hres Hne Ht Hlive. cbv zeta.
  pose proof (reachable_aligned m Hreach) as Hal.
  destruct (resolved_entries m x sid Hal Hres) as (t' & h & me & Ht' & Hh & _).
  assert (Hnz : some_nonempty (Some sid) = true)
    by (destruct sid; [congruence | reflexivity]).
  set (m1 := record_command x c now m).
  assert (R : m1 = mkSessionManager (_sessions m)
                     (dict_set sid (h ++ [mkEntry c now]) (_history m))
                     (_metadata m)).
  { unfold m1, record_command. rewrite Hres, Hnz, Hh. reflexivity. }
  assert (E : send_command x c now ok polls m
              = call x (Terminal.send_command c (1 # 2) ok polls) t m1).
  { unfold send_command. rewrite get_session_resolved, Hres, Ht, Hlive.
    reflexivity. }
  rewrite E. unfold call. cbn [fst snd].
  pose proof (record_command_resolve x c x now m) as Rr. fold m1 in Rr.
  rewrite Rr, Hres. cbv beta iota.
  assert (Ht1 : dict_get sid (_sessions m1) = Some t) by (rewrite R; exact Ht).
  destruct (with_session_rest
              sid (fun s => snd (Terminal.send_command c (1 # 2) ok polls s))
              m1) as (Hh1 & Hm1 & _).
  split; [reflexivity|]. split.
  { exact (with_session_get
             sid (fun s => snd (Terminal.send_command c (1 # 2) ok polls s))
             m1 t Ht1). }
  split.
  { exists h. split; [exact Hh|]. rewrite Hh1, R. cbn [_history].
    apply dict_get_set_same. }
  split.
  { intros k Hk. split.
    - rewrite with_session_other by assumption. rewrite R. reflexivity.
    - rewrite Hh1, R. cbn [_history]. apply dict_get_set_other. assumption. }
  split; [rewrite Hm1, R; reflexivity|].
  intros ->. unfold is_alive in Hlive.
  apply andb_prop in Hlive as [Hrun _].
  unfold Terminal.send_command, process_write, bind, get, modify, raise.
  rewrite Hrun. cbn [negb process set_output_buffer].
  destruct (process t); cbn [fst]; eexists; reflexivity.
Qed.

Lemma command_endpoint_records_then_sends_witness :
  exists h,
    dict_get id_a (_history twins) = Some h
    /\ dict_get id_a (_history (snd (send_command (lit "t1") (lit "ls") 3
                                                  false [] twins)))
       = Some (h ++ [mkEntry (lit "ls") 3]).
Proof.
  assert (T : exists t, dict_get id_a (_sessions twins) = Some t
                        /\ is_alive t = true)
    by (eexists; split; reflexivity).
  destruct T as (t & Ht & Hl).
  destruct (command_endpoint_records_then_sends
              twins (lit "t1") id_a (lit "ls") 3 false [] t
              twins_reachable eq_refl ltac:(discriminate) Ht Hl)
    as (_ & _ & H & _).
  exact H.
Defined.

(** *** Sessions whose reader thread has ended *)





(** *** What the handlers leave alone *)

(** X24.  The input and output endpoints never touch the history or the
    metadata, whatever the identifier and whatever the session does; and
    neither they nor the command endpoint change which ids are
    registered. *)
Theorem only_commands_reach_the_history
        (m : SessionManager) (x c : text) (now timeout : Q) (ok : bool)
        (polls : list poll) :
  (_history (snd (send_raw_input x c ok polls m)) = _history m
   /\ _metadata (snd (send_raw_input x c ok polls m)) = _metadata m
   /\ keys (_sessions (snd (send_raw_input x c ok polls m)))
      = keys (_sessions m))
  /\ (_history (snd (get_output x timeout polls m)) = _history m
      /\ _metadata (snd (get_output x timeout polls m)) = _metadata m
      /\ keys (_sessions (snd (get_output x timeout polls m)))
         = keys (_sessions m))
  /\ (keys (_history (snd (send_command x c now ok polls m)))
      = keys (_history m)
      /\ _metadata (snd (send_command x c now ok polls m)) = _metadata m
      /\ keys (_sessions (snd (send_command x c now ok polls m)))
         = keys (_sessions m)).
Proof.
  split; [|split].
  - unfold send_raw_input.
    destruct (get_session m x) as [[t|]|e]; [|auto|auto].
    destruct (negb (is_alive t)); [auto | apply call_rest].
  - unfold get_output.
    destruct (get_session m x) as [[t|]|e]; [apply call_rest|auto|auto].
  - unfold send_command.
    destruct (get_session m x) as [[t|]|e]; [|auto|auto].
    destruct (negb (is_alive t)); [auto|].
    destruct (call_rest x (Terminal.send_command c (1 # 2) ok polls) t
                        (record_command x c now m)) as (Hh & Hm & Hs).
    destruct (record_command_rest x c now m) as [S Md].
    rewrite Hh, Hm, Hs, S, Md. repeat split.
    unfold record_command.
    destruct (_resolve_id m x) as [sid|]; [|reflexivity].
    destruct (some_nonempty (Some sid)); [|reflexivity].
    destruct (dict_get sid (_history m)) as [h|] eqn:E; [|reflexivity].
    cbn [_history]. rewrite keys_dict_set. apply add_key_present.
    eapply dict_get_has_key, E.
Qed.

(** *** The create endpoint *)




End EndpointFacts.
